(** * KEGG reaction dynamics simulator: the reaction parser, the species
    registry, the flux derivative and the change summary of [Code.py],
    embedded as Rocq functions and checked against its specification.

    Conventions of the embedding.
    - A Python [str] is a [string]; its characters are the code points
      below 256.
    - A Python exception is a value of [exn]; a computation that may raise
      returns a [res].
    - Concentrations and equilibrium constants are exact rationals ([Qc])
      where a property is about the operations performed and their
      operands: the arithmetic of the derivative is the one of the source,
      rounding apart. Where a property depends on the values NumPy
      computes, the derivative is taken in IEEE 754 binary64 (module
      [Float64]), with its rounding, infinities and NaN.
    - The iteration order of a Python [set] and the draws of
      [np.random.uniform] are parameters of the functions that use them. *)

From Stdlib Require Import Ascii QArith Qcanon Lia Lqa SpecFloat.
From stdpp Require Import base decidable option list strings gmap numbers pretty.

Close Scope Q_scope.
Close Scope Qc_scope.
Local Open Scope nat_scope.

(** ** Exceptions *)

Inductive exn : Set :=
| ValueError
| IndexError
| KeyError.

Inductive res (A : Type) : Type :=
| Ok (a : A)
| Raise (e : exn).
Arguments Ok {A} a.
Arguments Raise {A} e.

Definition res_bind {A B} (m : res A) (f : A → res B) : res B :=
  match m with
  | Ok a => f a
  | Raise e => Raise e
  end.

Notation "'let!' x ':=' m 'in' k" := (res_bind m (λ x, k))
  (at level 10, x name, m at level 100, k at level 200).
Notation "'let!' ' p ':=' m 'in' k" := (res_bind m (λ p, k))
  (at level 10, p pattern, m at level 100, k at level 200).

Fixpoint res_mapM {A B} (f : A → res B) (l : list A) : res (list B) :=
  match l with
  | [] => Ok []
  | a :: l' => let! b := f a in let! bs := res_mapM f l' in Ok (b :: bs)
  end.

Fixpoint res_foldM {A S} (f : S → A → res S) (s : S) (l : list A) : res S :=
  match l with
  | [] => Ok s
  | a :: l' => let! s' := f s a in res_foldM f s' l'
  end.

Definition is_ok {A} (m : res A) : Prop := ∃ a, m = Ok a.

#[global] Instance is_ok_dec {A} (m : res A) : Decision (is_ok m).
Proof.
  destruct m as [a|e]; [left; by exists a|right; by intros [a ?]].
Defined.

(** ** Python strings *)

Module PyStr.

(** [str.isspace] on one character: the code points below 256 that
    Python counts as whitespace. *)
Definition is_space (c : ascii) : bool :=
  let n := nat_of_ascii c in
  (Nat.leb 9 n && Nat.leb n 13) || (Nat.leb 28 n && Nat.leb n 32)
  || Nat.eqb n 133 || Nat.eqb n 160.

Fixpoint lstrip (s : string) : string :=
  match s with
  | EmptyString => EmptyString
  | String c s' => if is_space c then lstrip s' else s
  end.

Fixpoint rstrip (s : string) : string :=
  match s with
  | EmptyString => EmptyString
  | String c s' =>
      match rstrip s' with
      | EmptyString => if is_space c then EmptyString else String c EmptyString
      | r => String c r
      end
  end.

(** [s.strip()] *)
Definition strip (s : string) : string := rstrip (lstrip s).

(** [s.removeprefix(p)] when [s.startswith(p)] *)
Fixpoint strip_prefix (p s : string) : option string :=
  match p, s with
  | EmptyString, _ => Some s
  | String a p', String b s' =>
      if Ascii.eqb a b then strip_prefix p' s' else None
  | String _ _, EmptyString => None
  end.

(** [s.partition(sep)] when [sep] occurs in [s]: the text before its
    leftmost occurrence and the text after it. *)
Fixpoint find (sep s : string) : option (string * string) :=
  match strip_prefix sep s with
  | Some rest => Some (EmptyString, rest)
  | None =>
      match s with
      | EmptyString => None
      | String c s' =>
          match find sep s' with
          | Some (b, a) => Some (String c b, a)
          | None => None
          end
      end
  end.

Fixpoint split_fuel (n : nat) (sep s : string) : list string :=
  match n with
  | O => [s]
  | S n' =>
      match find sep s with
      | None => [s]
      | Some (b, a) => b :: split_fuel n' sep a
      end
  end.

(** [s.split(sep)] for a non-empty [sep]: every piece consumes at least
    one character of [s], so [String.length s] rounds are enough. *)
Definition split (sep s : string) : list string :=
  split_fuel (String.length s) sep s.

(** [sep.join(l)] *)
Fixpoint join (sep : string) (l : list string) : string :=
  match l with
  | [] => EmptyString
  | [s] => s
  | s :: l' => s +:+ sep +:+ join sep l'
  end.

(** [sep] occurs in [s] at some position. *)
Definition occurs (sep s : string) : Prop :=
  ∃ b a, s = b +:+ sep +:+ a.

Definition all_space (s : string) : Prop :=
  Forall (λ c, is_space c = true) (String.list_ascii_of_string s).

(** No whitespace to strip at either end. *)
Definition trimmed (t : string) : Prop := lstrip t = t ∧ rstrip t = t.

End PyStr.

Example split_arrow :
  PyStr.split "<=>" "A + B <=> C" = ["A + B "; " C"].
Proof. reflexivity. Qed.

Example split_plus :
  PyStr.split " + " "A + B " = ["A"; "B "].
Proof. reflexivity. Qed.

Example strip_ex : PyStr.strip "  C00031	" = "C00031".
Proof. reflexivity. Qed.

(** ** Python lists and dicts *)

Module PyList.
Section ops.
Context {A : Type} `{EqDecision A}.

(** [l.index(x)] *)
Fixpoint index (x : A) (l : list A) : res nat :=
  match l with
  | [] => Raise ValueError
  | y :: l' =>
      if decide (y = x) then Ok 0
      else let! i := index x l' in Ok (S i)
  end.

(** [l[i]] for a non-negative [i] *)
Definition getitem (l : list A) (i : nat) : res A :=
  match l !! i with
  | Some a => Ok a
  | None => Raise IndexError
  end.

(** [l[i] = v] for a non-negative [i] *)
Definition setitem (l : list A) (i : nat) (v : A) : res (list A) :=
  if decide (i < length l) then Ok (<[i:=v]> l) else Raise IndexError.

(** [a, b = l] *)
Definition unpack2 (l : list A) : res (A * A) :=
  match l with
  | [a; b] => Ok (a, b)
  | _ => Raise ValueError
  end.
End ops.

(** [d[k]] on a dict *)
Definition dict_getitem {V} (d : gmap string V) (k : string) : res V :=
  match d !! k with
  | Some v => Ok v
  | None => Raise KeyError
  end.
End PyList.

(** The iteration order of a Python [set] built from a list: each element
    once, in an order the language leaves open (for strings it follows the
    hashes, which CPython salts per process). *)
Record SetOrder := {
  set_to_list : list string → list string;
  set_to_list_NoDup : ∀ l, NoDup (set_to_list l);
  set_to_list_elem : ∀ l x, x ∈ set_to_list l ↔ x ∈ l
}.

(** ** Reactions *)

(** A fetched reaction: [(reaction_id, description)]. *)
Definition reaction : Type := string * string.

(** [substrates, products = description.split("<=>")] followed by the two
    [split(" + ")], as in [build_reaction_network] and in
    [reaction_kinetics]. *)
Definition split_description (description : string)
  : res (list string * list string) :=
  let! '(substrates, products) :=
    PyList.unpack2 (PyStr.split "<=>" description) in
  Ok (PyStr.split " + " substrates, PyStr.split " + " products).

(** ** build_reaction_network *)

(** The edges of the [DiGraph] with their [reaction] attribute. *)
Abbreviation digraph := (gmap (string * string) string).

Definition add_edge (G : digraph) (u v reaction_id : string) : digraph :=
  <[(u, v) := reaction_id]> G.

(** One round of the loop: the graph (or the exception that left the
    function) and the printed lines after it. Only the unpacking at the
    head of the [try] can raise [ValueError], before any edge is added. *)
Definition network_step (st : res digraph * list string) (r : reaction)
  : res digraph * list string :=
  match st with
  | (Raise e, out) => (Raise e, out)
  | (Ok G, out) =>
      let '(reaction_id, description) := r in
      match split_description description with
      | Ok (substrates, products) =>
          (Ok (fold_left (λ G s,
                 fold_left (λ G p,
                   add_edge G (PyStr.strip s) (PyStr.strip p) reaction_id)
                   products G) substrates G), out)
      | Raise ValueError =>
          (Ok G,
           out ++ ["Skipping malformed reaction description: " +:+ description])
      | Raise e => (Raise e, out)
      end
  end.

Definition build_reaction_network (reactions : list reaction)
  : res digraph * list string :=
  fold_left network_step reactions (Ok ∅, []).

(** The lines that [build_reaction_network] prints. *)
Definition network_diagnostics (reactions : list reaction) : list string :=
  omap (λ r : reaction,
    match split_description r.2 with
    | Ok _ => None
    | Raise _ => Some ("Skipping malformed reaction description: " +:+ r.2)
    end) reactions.

(** The reaction parses and links the species [e.1] to the species [e.2]:
    the first is one of its substrates, the second one of its products. *)
Definition has_edge (r : reaction) (e : string * string) : Prop :=
  ∃ substrates products,
    split_description r.2 = Ok (substrates, products)
    ∧ e.1 ∈ map PyStr.strip substrates
    ∧ e.2 ∈ map PyStr.strip products.

(** ** simulate_reaction_dynamics: the species list *)

(** The names one reaction contributes to the species list:
    [[s.strip() for s in r[1].split("<=>")[0].split(" + ")] +
     [p.strip() for p in r[1].split("<=>")[1].split(" + ")]]. *)
Definition reaction_names (r : reaction) : res (list string) :=
  let parts := PyStr.split "<=>" r.2 in
  let! lhs := PyList.getitem parts 0 in
  let substrates := map PyStr.strip (PyStr.split " + " lhs) in
  let! rhs := PyList.getitem parts 1 in
  let products := map PyStr.strip (PyStr.split " + " rhs) in
  Ok (substrates ++ products).

(** [sum([... for r in reactions], [])] *)
Definition all_names (reactions : list reaction) : res (list string) :=
  let! ls := res_mapM reaction_names reactions in
  Ok (concat ls).

(** [species = list(set(sum([...], [])))] *)
Definition species_of (o : SetOrder) (reactions : list reaction)
  : res (list string) :=
  let! names := all_names reactions in
  Ok (set_to_list o names).

(** First-seen order, in the words of the specification: every name gets
    the next unused position unless it was seen before. *)
Definition first_seen (names : list string) : list string :=
  fold_left (λ seen x, if decide (x ∈ seen) then seen else seen ++ [x])
    names [].

(** [{reaction[0]: np.random.uniform(0.1, 10) for reaction in reactions}]:
    [uniform n] is the [n]-th draw of the call; a later reaction with the
    same id replaces the constant of an earlier one. *)
Definition equilibrium_constants (uniform : nat → Qc)
  (reactions : list reaction) : gmap string Qc :=
  (fold_left (λ (acc : gmap string Qc * nat) (r : reaction),
     (<[r.1 := uniform acc.2]> acc.1, S acc.2)) reactions (∅, 0)).1.

(** ** simulate_reaction_dynamics: the derivative [reaction_kinetics] *)

(** [np.zeros_like(y)] *)
Definition zeros_like (y : list Qc) : list Qc := replicate (length y) 0%Qc.

(** [np.prod(l)]: 1 for the empty list. *)
Definition prod (l : list Qc) : Qc := fold_left Qcmult l 1%Qc.

(** [[species.index(s.strip()) for s in terms if s.strip() in species]] *)
Definition term_indices (species terms : list string) : res (list nat) :=
  res_mapM (λ s, PyList.index (PyStr.strip s) species)
    (filter (λ s, PyStr.strip s ∈ species) terms).

(** [[y[idx] for idx in indices if idx < len(y)]] *)
Definition in_range_values (y : list Qc) (indices : list nat)
  : res (list Qc) :=
  res_mapM (PyList.getitem y) (filter (λ idx, idx < length y) indices).

Record fluxes := {
  substrate_indices : list nat;
  product_indices : list nat;
  forward_flux : Qc;
  reverse_flux : Qc
}.

(** The body of the [try] up to the two fluxes; nothing is written yet. *)
Definition reaction_fluxes (species : list string)
  (equilibrium_constants : gmap string Qc) (y : list Qc) (r : reaction)
  : res fluxes :=
  let '(reaction_id, description) := r in
  let! '(substrates, products) := split_description description in
  let! substrate_indices := term_indices species substrates in
  let! product_indices := term_indices species products in
  let! k_eq := PyList.dict_getitem equilibrium_constants reaction_id in
  let! fs := in_range_values y substrate_indices in
  let forward_flux := prod fs in
  let! rs := in_range_values y product_indices in
  let reverse_flux := (k_eq * prod rs)%Qc in
  Ok {| substrate_indices := substrate_indices;
        product_indices := product_indices;
        forward_flux := forward_flux;
        reverse_flux := reverse_flux |}.

(** [dydt[idx] -= v] and [dydt[idx] += v] *)
Definition isub (dydt : list Qc) (idx : nat) (v : Qc) : res (list Qc) :=
  let! x := PyList.getitem dydt idx in PyList.setitem dydt idx (x - v)%Qc.

Definition iadd (dydt : list Qc) (idx : nat) (v : Qc) : res (list Qc) :=
  let! x := PyList.getitem dydt idx in PyList.setitem dydt idx (x + v)%Qc.

(** [for idx in indices: if idx < len(y): dydt[idx] op= v] *)
Definition update_loop (op : list Qc → nat → Qc → res (list Qc))
  (y : list Qc) (indices : list nat) (v : Qc) (dydt : list Qc)
  : res (list Qc) :=
  res_foldM (λ dydt idx,
    if decide (idx < length y) then op dydt idx v else Ok dydt)
    dydt indices.

(** The whole body of the [try] for one reaction. The writes to [dydt]
    can only raise [IndexError], so a [ValueError] leaves [dydt] as it was
    before the reaction. *)
Definition kinetics_body (species : list string)
  (equilibrium_constants : gmap string Qc) (y : list Qc) (r : reaction)
  (dydt : list Qc) : res (list Qc) :=
  let! f := reaction_fluxes species equilibrium_constants y r in
  let! dydt := update_loop isub y (substrate_indices f)
                 (forward_flux f - reverse_flux f)%Qc dydt in
  update_loop iadd y (product_indices f)
    (forward_flux f - reverse_flux f)%Qc dydt.

(** One round of the loop over the reactions: [dydt] (or the exception
    that left the function) and the printed lines. *)
Definition kinetics_step (species : list string)
  (equilibrium_constants : gmap string Qc) (y : list Qc)
  (st : res (list Qc) * list string) (r : reaction)
  : res (list Qc) * list string :=
  match st with
  | (Raise e, out) => (Raise e, out)
  | (Ok dydt, out) =>
      match kinetics_body species equilibrium_constants y r dydt with
      | Ok dydt' => (Ok dydt', out)
      | Raise ValueError =>
          (Ok dydt, out ++ ["Skipping malformed reaction: " +:+ r.2])
      | Raise e => (Raise e, out)
      end
  end.

Definition reaction_kinetics (species : list string)
  (equilibrium_constants : gmap string Qc) (reactions : list reaction)
  (t : Qc) (y : list Qc) : res (list Qc) * list string :=
  fold_left (kinetics_step species equilibrium_constants y) reactions
    (Ok (zeros_like y), []).

#[global] Instance Qc_inhabited : Inhabited Qc := populate 0%Qc.

(** How often [i] occurs in a list of indices. *)
Definition occurrences (i : nat) (indices : list nat) : nat :=
  length (filter (λ j, j = i) indices).

(** What one reaction adds to [dydt[i]]: the net flux once per occurrence
    of [i] among the products, minus once per occurrence among the
    substrates. *)
Definition contribution (f : fluxes) (i : nat) : Qc :=
  (Qc_of_Z (Z.of_nat (occurrences i (product_indices f)))
     * (forward_flux f - reverse_flux f)
   - Qc_of_Z (Z.of_nat (occurrences i (substrate_indices f)))
     * (forward_flux f - reverse_flux f))%Qc.

(** The sum of the contributions of the reactions that parse. *)
Definition net_rate (species : list string) (eqc : gmap string Qc)
  (y : list Qc) (reactions : list reaction) (i : nat) : Qc :=
  foldr (λ r acc,
    match reaction_fluxes species eqc y r with
    | Ok f => (contribution f i + acc)%Qc
    | Raise _ => acc
    end) 0%Qc reactions.

(** The lines that [reaction_kinetics] prints. *)
Definition kinetics_diagnostics (reactions : list reaction) : list string :=
  omap (λ r : reaction,
    match split_description r.2 with
    | Ok _ => None
    | Raise _ => Some ("Skipping malformed reaction: " +:+ r.2)
    end) reactions.

(** ** The derivative in the arithmetic of NumPy *)

(** The state vector that [solve_ivp] hands to [reaction_kinetics] is an
    array of [float64], [np.zeros_like(y)] has the same type, and the
    constants are Python floats: every product, difference and update of
    the derivative is an operation of IEEE 754 binary64, rounded to
    nearest, ties to even. [spec_float] with precision 53 and exponent
    bound 1024 is this format. *)
Module Float64.

Abbreviation float64 := spec_float.

Definition prec : Z := 53.
Definition emax : Z := 1024.

Definition add : float64 → float64 → float64 := SFadd prec emax.
Definition sub : float64 → float64 → float64 := SFsub prec emax.
Definition mul : float64 → float64 → float64 := SFmul prec emax.

(** [float(n)] for an integer [n]: the nearest [float64]. *)
Definition of_Z (n : Z) : float64 := binary_normalize prec emax n 0 false.

(** [0.0] *)
Definition zero : float64 := S754_zero false.

(** [x == y] *)
Definition eqb : float64 → float64 → bool := SFeqb.

(** [np.isfinite(x)] *)
Definition isfinite (x : float64) : bool :=
  match x with
  | S754_zero _ | S754_finite _ _ _ => true
  | S754_infinity _ | S754_nan => false
  end.

(** [{reaction[0]: np.random.uniform(0.1, 10) for reaction in reactions}] *)
Definition equilibrium_constants (uniform : nat → float64)
  (reactions : list reaction) : gmap string float64 :=
  (fold_left (λ (acc : gmap string float64 * nat) (r : reaction),
     (<[r.1 := uniform acc.2]> acc.1, S acc.2)) reactions (∅, 0)).1.

(** [np.zeros_like(y)] *)
Definition zeros_like (y : list float64) : list float64 :=
  replicate (length y) zero.

(** [np.prod(l)]: the factors are multiplied from left to right into 1.0,
    so the empty list gives 1.0. *)
Definition prod (l : list float64) : float64 := fold_left mul l (of_Z 1).

(** [[y[idx] for idx in indices if idx < len(y)]] *)
Definition in_range_values (y : list float64) (indices : list nat)
  : res (list float64) :=
  res_mapM (PyList.getitem y) (filter (λ idx, idx < length y) indices).

Record fluxes := {
  substrate_indices : list nat;
  product_indices : list nat;
  forward_flux : float64;
  reverse_flux : float64
}.

(** The body of the [try] up to the two fluxes. *)
Definition reaction_fluxes (species : list string)
  (equilibrium_constants : gmap string float64) (y : list float64)
  (r : reaction) : res fluxes :=
  let '(reaction_id, description) := r in
  let! '(substrates, products) := split_description description in
  let! substrate_indices := term_indices species substrates in
  let! product_indices := term_indices species products in
  let! k_eq := PyList.dict_getitem equilibrium_constants reaction_id in
  let! fs := in_range_values y substrate_indices in
  let forward_flux := prod fs in
  let! rs := in_range_values y product_indices in
  let reverse_flux := mul k_eq (prod rs) in
  Ok {| substrate_indices := substrate_indices;
        product_indices := product_indices;
        forward_flux := forward_flux;
        reverse_flux := reverse_flux |}.

(** [dydt[idx] -= v] and [dydt[idx] += v] *)
Definition isub (dydt : list float64) (idx : nat) (v : float64)
  : res (list float64) :=
  let! x := PyList.getitem dydt idx in PyList.setitem dydt idx (sub x v).

Definition iadd (dydt : list float64) (idx : nat) (v : float64)
  : res (list float64) :=
  let! x := PyList.getitem dydt idx in PyList.setitem dydt idx (add x v).

(** [for idx in indices: if idx < len(y): dydt[idx] op= v] *)
Definition update_loop (op : list float64 → nat → float64 → res (list float64))
  (y : list float64) (indices : list nat) (v : float64) (dydt : list float64)
  : res (list float64) :=
  res_foldM (λ dydt idx,
    if decide (idx < length y) then op dydt idx v else Ok dydt)
    dydt indices.

(** The whole body of the [try] for one reaction; [forward_flux -
    reverse_flux] is computed anew at every update, with the same
    result. *)
Definition kinetics_body (species : list string)
  (equilibrium_constants : gmap string float64) (y : list float64)
  (r : reaction) (dydt : list float64) : res (list float64) :=
  let! f := reaction_fluxes species equilibrium_constants y r in
  let! dydt := update_loop isub y (substrate_indices f)
                 (sub (forward_flux f) (reverse_flux f)) dydt in
  update_loop iadd y (product_indices f)
    (sub (forward_flux f) (reverse_flux f)) dydt.

Definition kinetics_step (species : list string)
  (equilibrium_constants : gmap string float64) (y : list float64)
  (st : res (list float64) * list string) (r : reaction)
  : res (list float64) * list string :=
  match st with
  | (Raise e, out) => (Raise e, out)
  | (Ok dydt, out) =>
      match kinetics_body species equilibrium_constants y r dydt with
      | Ok dydt' => (Ok dydt', out)
      | Raise ValueError =>
          (Ok dydt, out ++ ["Skipping malformed reaction: " +:+ r.2])
      | Raise e => (Raise e, out)
      end
  end.

Definition reaction_kinetics (species : list string)
  (equilibrium_constants : gmap string float64) (reactions : list reaction)
  (t : float64) (y : list float64) : res (list float64) * list string :=
  fold_left (kinetics_step species equilibrium_constants y) reactions
    (Ok (zeros_like y), []).

End Float64.

(** ** simulate_reaction_dynamics: the call of the integrator *)

(** The list objects of the caller, by address. *)
Abbreviation heap := (gmap nat (list Qc)).

(** [np.linspace(a, b, num)] *)
Definition linspace (a b : Qc) (num : nat) : list Qc :=
  map (λ i, a + Qc_of_Z (Z.of_nat i) * ((b - a) / Qc_of_Z (Z.of_nat (num - 1))))%Qc
    (seq 0 num).

(** What [solve_ivp] is called with. *)
Record ivp := {
  ivp_fun : Qc → list Qc → res (list Qc) * list string;
  ivp_t_span : Qc * Qc;
  ivp_y0 : list Qc;
  ivp_t_eval : list Qc
}.

(** [simulate_reaction_dynamics] up to the call of [solve_ivp]: the
    arguments of that call, the species list and the heap afterwards.
    [initial_concentrations] is the address of the caller's list. *)
Definition solve_ivp_call (o : SetOrder) (uniform : nat → Qc)
  (reactions : list reaction) (initial_concentrations : nat)
  (time_span : Qc * Qc) (h : heap) : res (ivp * list string) * heap :=
  let equilibrium_constants := equilibrium_constants uniform reactions in
  match species_of o reactions with
  | Raise e => (Raise e, h)
  | Ok species =>
      let num_species := length species in
      let h :=
        if decide (length (h !!! initial_concentrations) < num_species)
        then <[initial_concentrations :=
                 h !!! initial_concentrations ++
                 replicate (num_species - length (h !!! initial_concentrations)) 0%Qc]> h
        else h in
      (Ok ({| ivp_fun := reaction_kinetics species equilibrium_constants reactions;
              ivp_t_span := time_span;
              ivp_y0 := take num_species (h !!! initial_concentrations);
              ivp_t_eval := linspace time_span.1 time_span.2 100 |},
           species), h)
  end.

(** The result of [solve_ivp]: the sample times and one row of
    concentrations per species. *)
Definition solution : Type := list Qc * list (list Qc).

Definition simulate_reaction_dynamics (o : SetOrder) (uniform : nat → Qc)
  (solve_ivp : ivp → res solution)
  (reactions : list reaction) (initial_concentrations : nat)
  (time_span : Qc * Qc) (h : heap)
  : res (list Qc * list (list Qc) * list string) * heap :=
  match solve_ivp_call o uniform reactions initial_concentrations time_span h with
  | (Raise e, h') => (Raise e, h')
  | (Ok (call, species), h') =>
      (let! sol := solve_ivp call in Ok (sol.1, sol.2, species), h')
  end.

(** ** analyze_changes *)

Inductive magnitude : Set := Minor | Moderate | Major.

(** A bin edge: a number or [float("inf")]. *)
Inductive edge : Set :=
| Finite (q : Qc)
| PosInf.

Definition Qcltb (x y : Qc) : bool :=
  match (x ?= y)%Qc with Lt => true | _ => false end.

Definition Qc_abs (x : Qc) : Qc := if Qcltb x 0 then (- x)%Qc else x.

Definition edge_ltb (b : edge) (x : Qc) : bool :=
  match b with
  | Finite q => Qcltb q x
  | PosInf => false
  end.

(** [bins.searchsorted(x, side="left")]: the number of edges below [x]. *)
Fixpoint searchsorted_left (bins : list edge) (x : Qc) : nat :=
  match bins with
  | [] => 0
  | b :: bins' => if edge_ltb b x then S (searchsorted_left bins' x) else 0
  end.

(** [pd.cut(x, bins, labels)] for one value, with pandas' defaults
    [right=True] and [include_lowest=False]: a value at or below the first
    edge, or above the last one, has no label. *)
Definition cut {L} (x : Qc) (bins : list edge) (labels : list L) : option L :=
  let i := searchsorted_left bins x in
  if decide (i = 0 ∨ i = length bins) then None else labels !! (i - 1).

Definition bins : list edge :=
  [Finite 0; Finite (Q2Qc (1 # 10)); Finite 1; PosInf].

Definition labels : list magnitude := [Minor; Moderate; Major].

Record row := {
  row_species : string;
  row_initial : Qc;
  row_final : Qc;
  row_change : Qc;
  row_magnitude : option magnitude
}.

(** The data frame that [analyze_changes] prints: [y] has one row per
    species and one column per sample time. *)
Definition analyze_changes (y : list (list Qc)) (species : list string)
  : res (list row) :=
  let! final_concentrations :=
    res_mapM (λ r, PyList.getitem r (length r - 1)) y in
  let! initial_concentrations := res_mapM (λ r, PyList.getitem r 0) y in
  let changes :=
    zip_with (λ f i, (f - i)%Qc) final_concentrations initial_concentrations in
  if decide (length species = length y) then
    Ok (zip_with (λ sp '(i, f, c),
          {| row_species := sp; row_initial := i; row_final := f;
             row_change := c;
             row_magnitude := cut (Qc_abs c) bins labels |})
        species
        (zip (zip initial_concentrations final_concentrations) changes))
  else Raise ValueError.

(** The labels in the order of their bins. *)
Definition magnitude_rank (m : magnitude) : nat :=
  match m with
  | Minor => 1
  | Moderate => 2
  | Major => 3
  end.

(** ** fetch_reactions_for_molecule *)

Definition tab : string := String "009"%char EmptyString.
Definition newline : string := String "010"%char EmptyString.

(** [sub in s] *)
Definition str_contains (sub s : string) : bool :=
  match PyStr.find sub s with
  | Some _ => true
  | None => false
  end.

(** [s.split(sep, 1)]: at most one cut, at the leftmost separator. *)
Definition split_once (sep s : string) : list string :=
  match PyStr.find sep s with
  | Some (b, a) => [b; a]
  | None => [s]
  end.

(** [s * n] *)
Fixpoint str_repeat (s : string) (n : nat) : string :=
  match n with
  | O => EmptyString
  | S n' => s +:+ str_repeat s n'
  end.

(** [results.split("\n") if results else []] *)
Definition result_lines (results : string) : list string :=
  if decide (results = EmptyString) then [] else PyStr.split newline results.

(** One round of the loop over the lines: [parsed_reactions] and
    [skipped_lines] after it. *)
Definition fetch_step (st : list reaction * list string) (r : string)
  : res (list reaction * list string) :=
  let '(parsed_reactions, skipped_lines) := st in
  if str_contains tab r then
    let! '(reaction_id, description) := PyList.unpack2 (split_once tab r) in
    Ok (parsed_reactions ++ [(reaction_id, description)], skipped_lines)
  else Ok (parsed_reactions, skipped_lines ++ [r]).

Definition fetch_loop (reactions : list string)
  : res (list reaction * list string) :=
  res_foldM fetch_step ([], []) reactions.

(** What the function prints once the lines are sorted; [tabulate] is the
    table of the library of that name. *)
Definition fetch_report (tabulate : list reaction → string)
  (molecule_id : string) (parsed_reactions : list reaction)
  (skipped_lines : list string) : list string :=
  [str_repeat "=" 50;
   "Reactions involving " +:+ molecule_id +:+ ": "
     +:+ pretty (length parsed_reactions) +:+ " found";
   str_repeat "=" 50]
  ++ (match parsed_reactions with
      | [] => ["No valid reactions found."]
      | _ => [tabulate parsed_reactions]
      end)
  ++ (match skipped_lines with
      | [] => [newline +:+ "No malformed lines encountered."]
      | _ =>
          (newline +:+ "Skipped lines due to formatting issues:")
          :: map (λ line, " - " +:+ line) skipped_lines
      end).

(** The function, given the text [results] (a [str]) that
    [kegg.find("reaction", molecule_id)] answered: the returned list (or
    the exception) and the printed lines. The construction of the client,
    the import of [tabulate] and a reply of the client that is not text
    (a failed request) are outside this function's model. *)
Definition fetch_reactions_for_molecule (tabulate : list reaction → string)
  (results : string) (molecule_id : string)
  : res (list reaction) * list string :=
  match fetch_loop (result_lines results) with
  | Ok (parsed_reactions, skipped_lines) =>
      (Ok parsed_reactions,
       fetch_report tabulate molecule_id parsed_reactions skipped_lines)
  | Raise e => (Raise e, [])
  end.

(** ** The main script *)

Definition initial_concentration_range : list Qc :=
  [Q2Qc (1 # 10); Q2Qc (1 # 2); 1%Qc; 2%Qc].

(** [[initial_concentration] + [0.1] * (len(reactions) - 1)] *)
Definition main_initial_concentrations (initial_concentration : Qc)
  (reactions : list reaction) : list Qc :=
  initial_concentration :: replicate (length reactions - 1) (Q2Qc (1 # 10)).

(** What the script shows: a printed line, a figure of [plot_dynamics], or
    the data frame of [analyze_changes] under its heading. *)
Inductive event : Type :=
| Print (line : string)
| Plot (t : list Qc) (y : list (list Qc)) (species : list string)
    (initial_concentration : Qc)
| Summary (rows : list row).

(** [plot_dynamics]: one curve [plt.plot(t, y[idx])] per species, in the
    order of the species list, then the figure is shown. [y[idx]] raises
    [IndexError] when [y] has no such row, and the plotting library raises
    [ValueError] for a row that is not as long as [t]. *)
Definition plot_dynamics (t : list Qc) (y : list (list Qc))
  (species : list string) (initial_concentration : Qc) : res event :=
  let! _ :=
    res_mapM (λ idx,
      let! curve := PyList.getitem y idx in
      if decide (length curve = length t) then Ok curve
      else Raise ValueError) (seq 0 (length species)) in
  Ok (Plot t y species initial_concentration).

(** What the script does not compute itself. [uniform] is the stream of
    the process-wide random source. *)
Record externals := {
  ext_input : string → string;
  ext_kegg_find : string → string → string;
  ext_tabulate : list reaction → string;
  ext_solve_ivp : ivp → res solution;
  ext_set_order : SetOrder;
  ext_uniform : nat → Qc
}.

(** One round of the loop over [initial_concentration_range]: the events so
    far, the number of draws taken from the random source, and the
    exception that ended the script, if any. The list of initial
    concentrations is a fresh object in every round. *)
Definition main_step (E : externals) (reactions : list reaction)
  (st : list event * nat * option exn) (initial_concentration : Qc)
  : list event * nat * option exn :=
  let '(events, draws, raised) := st in
  match raised with
  | Some e => st
  | None =>
      let h : heap :=
        {[0 := main_initial_concentrations initial_concentration reactions]} in
      let draws' := draws + length reactions in
      match (simulate_reaction_dynamics (ext_set_order E)
               (λ n, ext_uniform E (draws + n)) (ext_solve_ivp E)
               reactions 0 (0%Qc, Q2Qc 10%Q) h).1 with
      | Raise e => (events, draws', Some e)
      | Ok (t, y, species) =>
          match plot_dynamics t y species initial_concentration with
          | Raise e => (events, draws', Some e)
          | Ok figure =>
              match analyze_changes y species with
              | Raise e => (events ++ [figure], draws', Some e)
              | Ok rows =>
                  (events
                     ++ [figure;
                         Print (newline
                                +:+ "Summary of Changes in Concentrations:");
                         Summary rows],
                   draws', None)
              end
          end
      end
  end.

(** The script: the events in order and the exception that ended it, if
    any. *)
Definition main (E : externals) : list event * option exn :=
  let molecule_id :=
    ext_input E
      "Enter the KEGG ID of the molecule (e.g., C00031 for Glucose): " in
  let '(fetched, out) :=
    fetch_reactions_for_molecule (ext_tabulate E)
      (ext_kegg_find E "reaction" molecule_id) molecule_id in
  match fetched with
  | Raise e => (map Print out, Some e)
  | Ok [] => (map Print out, None)
  | Ok reactions =>
      let '(G, out') := build_reaction_network reactions in
      match G with
      | Raise e => (map Print (out ++ out'), Some e)
      | Ok _ =>
          let '(events, _, raised) :=
            fold_left (main_step E reactions) initial_concentration_range
              (map Print (out ++ out'), 0, None) in
          (events, raised)
      end
  end.

(** The initial concentrations of the figures among the events, in the
    order in which they were shown. *)
Definition plotted (events : list event) : list Qc :=
  omap (λ ev,
    match ev with
    | Plot _ _ _ initial_concentration => Some initial_concentration
    | _ => None
    end) events.

(** The data frames among the events. *)
Definition summaries (events : list event) : list (list row) :=
  omap (λ ev,
    match ev with
    | Summary rows => Some rows
    | _ => None
    end) events.

(** An integrator that answers as the library does: one row per entry of
    the initial vector, one sample per time in every row, at least one
    time. *)
Definition solver_answers (E : externals) : Prop :=
  ∀ call, ∃ t y,
    ext_solve_ivp E call = Ok (t, y)
    ∧ t ≠ []
    ∧ length y = length (ivp_y0 call)
    ∧ Forall (λ row, length row = length t) y.

(** ** Three iteration orders for a set of names *)

Lemma first_seen_acc (names seen : list string) :
  NoDup seen →
  let r := fold_left (λ seen x, if decide (x ∈ seen) then seen else seen ++ [x])
             names seen in
  NoDup r ∧ ∀ x, x ∈ r ↔ x ∈ seen ∨ x ∈ names.
Proof.
  revert seen. induction names as [|n names IH]; intros seen Hnd; simpl.
  - split; [done|]. intros x. rewrite elem_of_nil. tauto.
  - destruct (decide (n ∈ seen)) as [Hin|Hin].
    + destruct (IH seen Hnd) as [H1 H2]. split; [done|].
      intros x. rewrite H2, elem_of_cons. split; [tauto|].
      intros [?|[->|?]]; auto.
    + assert (Hnd' : NoDup (seen ++ [n])).
      { apply list.NoDup_app. split_and!; [done| |apply NoDup_singleton].
        intros x Hx ->%list_elem_of_singleton. done. }
      destruct (IH _ Hnd') as [H1 H2]. split; [done|].
      intros x. rewrite H2, elem_of_app, list_elem_of_singleton, elem_of_cons.
      tauto.
Qed.

Lemma first_seen_NoDup names : NoDup (first_seen names).
Proof. apply (first_seen_acc names []), NoDup_nil_2. Qed.

Lemma first_seen_elem names x : x ∈ first_seen names ↔ x ∈ names.
Proof.
  destruct (first_seen_acc names [] (NoDup_nil_2)) as [_ H].
  unfold first_seen. rewrite H, elem_of_nil. tauto.
Qed.

(** The order of insertion. *)
Definition insertion_order : SetOrder :=
  {| set_to_list := first_seen;
     set_to_list_NoDup := first_seen_NoDup;
     set_to_list_elem := first_seen_elem |}.

Lemma reverse_first_seen_NoDup names : NoDup (reverse (first_seen names)).
Proof. rewrite reverse_Permutation. apply first_seen_NoDup. Qed.

Lemma reverse_first_seen_elem names x :
  x ∈ reverse (first_seen names) ↔ x ∈ names.
Proof. rewrite elem_of_reverse. apply first_seen_elem. Qed.

(** The newest name first. *)
Definition newest_first_order : SetOrder :=
  {| set_to_list := λ l, reverse (first_seen l);
     set_to_list_NoDup := reverse_first_seen_NoDup;
     set_to_list_elem := reverse_first_seen_elem |}.

Lemma gset_elements_NoDup (names : list string) :
  NoDup (elements (list_to_set names : gset string)).
Proof. apply NoDup_elements. Qed.

Lemma gset_elements_elem (names : list string) x :
  x ∈ elements (list_to_set names : gset string) ↔ x ∈ names.
Proof. rewrite elem_of_elements. apply elem_of_list_to_set. Qed.

(** The order of a hashed table: the one of stdpp's [gset]. *)
Definition table_order : SetOrder :=
  {| set_to_list := λ l, elements (list_to_set l : gset string);
     set_to_list_NoDup := gset_elements_NoDup;
     set_to_list_elem := gset_elements_elem |}.

(** ** Facts about the string functions *)

Module PyStrFacts.
Import PyStr.

Lemma app_nil_l (s : string) : "" +:+ s = s.
Proof. reflexivity. Qed.

Lemma app_cons c (s t : string) : String c s +:+ t = String c (s +:+ t).
Proof. reflexivity. Qed.

Lemma app_nil_r (s : string) : s +:+ "" = s.
Proof. induction s as [|c s IH]; [done|]. by rewrite app_cons, IH. Qed.

Lemma app_assoc (s1 s2 s3 : string) :
  (s1 +:+ s2) +:+ s3 = s1 +:+ s2 +:+ s3.
Proof. induction s1 as [|c s1 IH]; [done|]. by rewrite !app_cons, IH. Qed.

Lemma length_app (s1 s2 : string) :
  String.length (s1 +:+ s2) = String.length s1 + String.length s2.
Proof.
  induction s1 as [|c s1 IH]; [done|]. rewrite app_cons. simpl. by rewrite IH.
Qed.

Lemma strip_prefix_Some p s r : strip_prefix p s = Some r ↔ s = p +:+ r.
Proof.
  revert s. induction p as [|a p IH]; intros s; simpl.
  - rewrite app_nil_l. split; congruence.
  - rewrite app_cons. destruct s as [|b s]; [split; discriminate|].
    destruct (Ascii.eqb a b) eqn:E.
    + apply Ascii.eqb_eq in E as ->. rewrite IH. split; congruence.
    + apply Ascii.eqb_neq in E. split; [discriminate|congruence].
Qed.

Lemma find_unfold sep s :
  find sep s =
    match strip_prefix sep s with
    | Some rest => Some (EmptyString, rest)
    | None =>
        match s with
        | EmptyString => None
        | String c s' =>
            match find sep s' with
            | Some (b, a) => Some (String c b, a)
            | None => None
            end
        end
    end.
Proof. by destruct s. Qed.

(** What [find] returns is a decomposition of the string. *)
Lemma find_Some sep s b a :
  find sep s = Some (b, a) → s = b +:+ sep +:+ a.
Proof.
  revert b a. induction s as [|c s IH]; intros b a; rewrite find_unfold.
  - destruct (strip_prefix sep "") eqn:E; [|done].
    intros [= <- <-]. by apply strip_prefix_Some in E.
  - destruct (strip_prefix sep (String c s)) eqn:E.
    + intros [= <- <-]. by apply strip_prefix_Some in E.
    + destruct (find sep s) as [[b' a']|]; [|done].
      intros [= <- <-]. rewrite app_cons. f_equal. by apply IH.
Qed.

(** [find] misses no occurrence. *)
Lemma occurs_prefix sep a : occurs sep (sep +:+ a).
Proof. by exists "", a. Qed.

Lemma occurs_cons sep c s :
  strip_prefix sep (String c s) = None →
  occurs sep (String c s) ↔ occurs sep s.
Proof.
  intros E. split.
  - intros (b & a & Hs). destruct b as [|c' b].
    + rewrite app_nil_l in Hs. apply strip_prefix_Some in Hs. congruence.
    + rewrite app_cons in Hs. injection Hs as -> ->. by exists b, a.
  - intros (b & a & ->). exists (String c b), a. by rewrite app_cons.
Qed.

Lemma find_None sep s : find sep s = None ↔ ¬ occurs sep s.
Proof.
  induction s as [|c s IH]; rewrite find_unfold.
  - destruct (strip_prefix sep "") as [r|] eqn:E.
    + split; [done|]. intros []. apply strip_prefix_Some in E as ->.
      apply occurs_prefix.
    + split; [|done]. intros _ (b & a & Hs).
      destruct b as [|c b]; [|by rewrite app_cons in Hs].
      rewrite app_nil_l in Hs. apply strip_prefix_Some in Hs. congruence.
  - destruct (strip_prefix sep (String c s)) as [r|] eqn:E.
    + split; [done|]. intros []. apply strip_prefix_Some in E as ->.
      apply occurs_prefix.
    + rewrite (occurs_cons _ _ _ E), <- IH.
      destruct (find sep s) as [[b a]|]; split; done.
Qed.

Lemma find_shorter sep s b a :
  sep ≠ "" → find sep s = Some (b, a) →
  String.length a < String.length s.
Proof.
  intros Hsep ->%find_Some. rewrite !length_app.
  destruct sep; [done|]. simpl. lia.
Qed.

(** More fuel than the length of the string changes nothing. *)
Lemma split_fuel_enough sep s n m :
  sep ≠ "" → String.length s ≤ n → String.length s ≤ m →
  split_fuel n sep s = split_fuel m sep s.
Proof.
  intros Hsep. revert s m.
  induction n as [|n IH]; intros s m Hn Hm.
  - destruct s; [|simpl in Hn; lia].
    destruct m; cbn [split_fuel]; [done|].
    destruct (find sep "") as [[b a]|] eqn:E; [|done].
    apply find_shorter in E; [simpl in E; lia|done].
  - cbn [split_fuel]. destruct (find sep s) as [[b a]|] eqn:E.
    + pose proof (find_shorter _ _ _ _ Hsep E).
      destruct m; [lia|]. cbn [split_fuel]. rewrite E. f_equal. apply IH; lia.
    + destruct m; cbn [split_fuel]; [done|]. by rewrite E.
Qed.

(** The equation of [split]: [split] is the recursion on the rest of the
    string after each separator, with no bound in sight. *)
Lemma split_unfold sep s :
  sep ≠ "" →
  split sep s =
    match find sep s with
    | Some (b, a) => b :: split sep a
    | None => [s]
    end.
Proof.
  intros Hsep. unfold split.
  destruct (find sep s) as [[b a]|] eqn:E.
  - pose proof (find_shorter _ _ _ _ Hsep E).
    destruct (String.length s) as [|n] eqn:Hl; [lia|].
    cbn [split_fuel]. rewrite E. f_equal. apply split_fuel_enough; [done|lia|lia].
  - destruct (String.length s); cbn [split_fuel]; [done|]. by rewrite E.
Qed.

Lemma split_nonempty sep s : split sep s ≠ [].
Proof.
  unfold split. destruct (String.length s); cbn [split_fuel]; [done|].
  by destruct (find sep s) as [[??]|].
Qed.

(** Joining the pieces with the separator gives the string back. *)
Lemma join_split sep s : sep ≠ "" → join sep (split sep s) = s.
Proof.
  intros Hsep. remember (String.length s) as n eqn:Hn.
  revert s Hn. induction n as [n IH] using lt_wf_ind. intros s ->.
  rewrite split_unfold by done.
  destruct (find sep s) as [[b a]|] eqn:E; [|done].
  pose proof (find_shorter _ _ _ _ Hsep E) as Hlt.
  specialize (IH _ Hlt a eq_refl).
  apply find_Some in E as ->.
  pose proof (split_nonempty sep a).
  cbn [join]. destruct (split sep a) eqn:Ea; [done|].
  by rewrite IH.
Qed.

(** The text before the occurrence that [find] reports holds no
    occurrence: the reported one is the leftmost. *)
Lemma find_leftmost sep s b a :
  sep ≠ "" → find sep s = Some (b, a) → ¬ occurs sep b.
Proof.
  intros Hsep. revert b a.
  induction s as [|c s IH]; intros b a; rewrite find_unfold.
  - destruct (strip_prefix sep "") as [r|] eqn:E; [|done].
    apply strip_prefix_Some in E. destruct sep; [done|].
    by rewrite app_cons in E.
  - destruct (strip_prefix sep (String c s)) as [r|] eqn:E.
    + intros [= <- <-] (u & v & Hb).
      destruct u; [|by rewrite app_cons in Hb].
      rewrite app_nil_l in Hb. destruct sep; [done|].
      by rewrite app_cons in Hb.
    + destruct (find sep s) as [[b' a']|] eqn:Ef; [|done].
      intros [= <- <-] (u & v & Hb).
      destruct u as [|c' u].
      * rewrite app_nil_l in Hb.
        apply find_Some in Ef as ->.
        assert (String c (b' +:+ sep +:+ a') =
                sep +:+ (v +:+ sep +:+ a')) as Hs.
        { by rewrite <- app_cons, Hb, !app_assoc. }
        apply strip_prefix_Some in Hs. congruence.
      * rewrite app_cons in Hb. injection Hb as -> ->.
        apply (IH _ _ eq_refl). by exists u, v.
Qed.

(** *** The separator of a reaction *)

Lemma arrow_no_overlap c lhs rhs :
  ¬ occurs "<=>" (String c lhs) →
  strip_prefix "<=>" (String c lhs +:+ "<=>" +:+ rhs) = None.
Proof.
  intros Hno.
  destruct (strip_prefix _ _) as [r|] eqn:E; [|done].
  exfalso. apply strip_prefix_Some in E.
  destruct lhs as [|d [|e lhs]]; rewrite ?app_cons, ?app_nil_l in E.
  - by injection E.
  - by injection E.
  - injection E as -> -> -> _. apply Hno. by exists "", lhs.
Qed.

Lemma find_arrow lhs rhs :
  ¬ occurs "<=>" lhs →
  find "<=>" (lhs +:+ "<=>" +:+ rhs) = Some (lhs, rhs).
Proof.
  induction lhs as [|c lhs IH]; intros Hno; rewrite find_unfold.
  - done.
  - rewrite arrow_no_overlap by done. rewrite app_cons, IH; [done|].
    intros (b & a & ->). apply Hno. exists (String c b), a.
    by rewrite app_cons.
Qed.

(** A description with one separator splits into its two sides. *)
Lemma split_arrow_once lhs rhs :
  ¬ occurs "<=>" lhs → ¬ occurs "<=>" rhs →
  split "<=>" (lhs +:+ "<=>" +:+ rhs) = [lhs; rhs].
Proof.
  intros Hl Hr. rewrite split_unfold, find_arrow by done.
  apply find_None in Hr. by rewrite split_unfold, Hr.
Qed.

(** The other way round: two pieces mean one separator. *)
Lemma split_arrow_two d lhs rhs :
  split "<=>" d = [lhs; rhs] →
  d = lhs +:+ "<=>" +:+ rhs ∧ ¬ occurs "<=>" lhs ∧ ¬ occurs "<=>" rhs.
Proof.
  rewrite split_unfold by done.
  destruct (find "<=>" d) as [[b a]|] eqn:E; [|done].
  rewrite split_unfold by done.
  destruct (find "<=>" a) as [[b' a']|] eqn:E'.
  - intros [= _ _ Hnil]. by apply split_nonempty in Hnil.
  - intros [= <- <-]. split_and!.
    + by apply find_Some.
    + by eapply find_leftmost.
    + by apply find_None.
Qed.

(** *** Trimming *)

Lemma all_space_nil : all_space "".
Proof. constructor. Qed.

Lemma all_space_cons c s :
  is_space c = true → all_space s → all_space (String c s).
Proof. intros. by constructor. Qed.

Lemma lstrip_decomp s : ∃ l, all_space l ∧ s = l +:+ lstrip s.
Proof.
  induction s as [|c s (l & Hl & IH)].
  { exists "". split; [apply all_space_nil|done]. }
  simpl. destruct (is_space c) eqn:E.
  - exists (String c l). split; [by apply all_space_cons|].
    by rewrite app_cons, <- IH.
  - exists "". split; [apply all_space_nil|done].
Qed.

Lemma rstrip_decomp s : ∃ r, all_space r ∧ s = rstrip s +:+ r.
Proof.
  induction s as [|c s (r & Hr & IH)].
  { exists "". split; [apply all_space_nil|done]. }
  simpl. destruct (rstrip s) as [|d t] eqn:Et.
  - rewrite app_nil_l in IH. subst r.
    destruct (is_space c) eqn:E.
    + exists (String c s). split; [by apply all_space_cons|done].
    + by exists s.
  - exists r. split; [done|]. by rewrite app_cons, <- IH.
Qed.

Lemma lstrip_length s : String.length (lstrip s) ≤ String.length s.
Proof.
  induction s as [|c s IH]; simpl; [done|].
  destruct (is_space c); simpl; lia.
Qed.

Lemma lstrip_fixed c s :
  lstrip (String c s) = String c s ↔ is_space c = false.
Proof.
  simpl. destruct (is_space c); [|done]. split; [|done].
  intros H. pose proof (lstrip_length s) as Hl. rewrite H in Hl.
  simpl in Hl. lia.
Qed.

Lemma lstrip_idem s : lstrip (lstrip s) = lstrip s.
Proof.
  induction s as [|c s IH]; simpl; [done|].
  destruct (is_space c) eqn:E; [done|]. simpl. by rewrite E.
Qed.

Lemma rstrip_idem s : rstrip (rstrip s) = rstrip s.
Proof.
  induction s as [|c s IH]; simpl; [done|].
  destruct (rstrip s) as [|d t] eqn:Et.
  - destruct (is_space c) eqn:E; simpl; [done|]. by rewrite E.
  - remember (String d t) as r. simpl. rewrite IH. by subst r.
Qed.

Lemma lstrip_rstrip t : lstrip t = t → lstrip (rstrip t) = rstrip t.
Proof.
  destruct t as [|c t]; [done|]. intros Hc%lstrip_fixed.
  simpl rstrip. destruct (rstrip t); rewrite ?Hc; by apply lstrip_fixed.
Qed.

(** A stripped term has no whitespace left at either end. *)
Lemma strip_trimmed s : trimmed (strip s).
Proof.
  split; unfold strip.
  - apply lstrip_rstrip, lstrip_idem.
  - apply rstrip_idem.
Qed.

(** A term is its stripped form between two runs of whitespace. *)
Lemma strip_decomp s :
  ∃ l r, all_space l ∧ all_space r ∧ s = l +:+ strip s +:+ r.
Proof.
  destruct (lstrip_decomp s) as (l & Hl & Hs).
  destruct (rstrip_decomp (lstrip s)) as (r & Hr & Hs').
  exists l, r. split_and!; [done..|]. unfold strip. congruence.
Qed.

Lemma occurs_find sep s : occurs sep s ↔ is_Some (find sep s).
Proof.
  rewrite <- not_eq_None_Some, find_None.
  split; [auto|]. intros H. destruct (find sep s) as [[b a]|] eqn:E.
  - exists b, a. by apply find_Some.
  - apply find_None in E. by destruct H.
Qed.

#[global] Instance occurs_dec sep s : Decision (occurs sep s).
Proof.
  refine (cast_if (decide (is_Some (find sep s)))); by rewrite occurs_find.
Defined.
End PyStrFacts.

(** ** The reaction parser *)

Section parser.
Import PyStr PyStrFacts.

(** The unpacking accepts the descriptions with exactly one separator and
    no others. *)
Lemma split_description_ok_iff d :
  is_ok (split_description d)
  ↔ ∃ lhs rhs, d = lhs +:+ "<=>" +:+ rhs
               ∧ ¬ occurs "<=>" lhs ∧ ¬ occurs "<=>" rhs.
Proof.
  unfold split_description, PyList.unpack2. split.
  - intros [p Hp].
    destruct (split "<=>" d) as [|lhs [|rhs [|? ?]]] eqn:E; try done.
    exists lhs, rhs. by apply split_arrow_two.
  - intros (lhs & rhs & -> & Hl & Hr).
    rewrite (split_arrow_once _ _ Hl Hr). by eexists.
Qed.

(** C7. A description with exactly one [<=>] is split there into a
    substrate side and a product side; each side is split on [" + "] into
    terms that, joined again, give the side back (their order and their
    duplicates are kept), and every term is used stripped of the
    whitespace around it. The loop of [build_reaction_network] and the
    species list of [simulate_reaction_dynamics] read the same terms.
    ["A + B <=> C"] gives the substrates A, B and the product C. *)
Theorem parse_well_formed (reaction_id lhs rhs : string) :
  ¬ occurs "<=>" lhs → ¬ occurs "<=>" rhs →
  split_description (lhs +:+ "<=>" +:+ rhs)
    = Ok (split " + " lhs, split " + " rhs)
  ∧ reaction_names (reaction_id, lhs +:+ "<=>" +:+ rhs)
    = Ok (map strip (split " + " lhs) ++ map strip (split " + " rhs))
  ∧ join " + " (split " + " lhs) = lhs
  ∧ join " + " (split " + " rhs) = rhs
  ∧ Forall trimmed (map strip (split " + " lhs) ++ map strip (split " + " rhs))
  ∧ (∀ t, t ∈ split " + " lhs ++ split " + " rhs →
       ∃ l r, all_space l ∧ all_space r ∧ t = l +:+ strip t +:+ r)
  ∧ split_description "A + B <=> C" = Ok (["A"; "B "], [" C"])
  ∧ reaction_names (reaction_id, "A + B <=> C") = Ok ["A"; "B"; "C"].
Proof.
  intros Hl Hr.
  unfold split_description, reaction_names. cbn [snd].
  rewrite (split_arrow_once _ _ Hl Hr).
  split_and!; try done.
  - by apply join_split.
  - by apply join_split.
  - rewrite <- fmap_app. apply Forall_fmap, list.Forall_forall.
    intros t _. apply strip_trimmed.
  - intros t _. apply strip_decomp.
Qed.

Lemma parse_well_formed_witness :
  (¬ occurs "<=>" "C00031 + C00002 " ∧ ¬ occurs "<=>" " C00003 + C00003")
  ∧ split_description "C00031 + C00002 <=> C00003 + C00003"
    = Ok (["C00031"; "C00002 "], [" C00003"; "C00003"])
  ∧ reaction_names ("R00001", "C00031 + C00002 <=> C00003 + C00003")
    = Ok ["C00031"; "C00002"; "C00003"; "C00003"].
Proof.
  assert (H1 : ¬ occurs "<=>" "C00031 + C00002 ") by (apply find_None; reflexivity).
  assert (H2 : ¬ occurs "<=>" " C00003 + C00003") by (apply find_None; reflexivity).
  split; [done|].
  destruct (parse_well_formed "R00001" _ _ H1 H2) as (E1 & E2 & _).
  split; [exact E1|exact E2].
Defined.
End parser.

(** ** The species registry *)

Section registry.
Context {A : Type} `{EqDecision A}.
Implicit Types (x : A) (l : list A).

Lemma index_lookup x l i : PyList.index x l = Ok i → l !! i = Some x.
Proof.
  revert i. induction l as [|y l IH]; intros i; simpl; [done|].
  destruct (decide (y = x)) as [->|Hne]; [by intros [= <-]|].
  destruct (PyList.index x l) as [j|e]; simpl; [|done].
  intros [= <-]. by apply IH.
Qed.

Lemma index_lt x l i : PyList.index x l = Ok i → i < length l.
Proof. intros H%index_lookup. by eapply lookup_lt_Some. Qed.

Lemma index_elem x l : x ∈ l → ∃ i, PyList.index x l = Ok i.
Proof.
  induction l as [|y l IH]; [by intros ?%elem_of_nil|].
  intros Hin. simpl. destruct (decide (y = x)) as [->|Hne]; [by exists 0|].
  apply elem_of_cons in Hin as [->|Hin]; [done|].
  destruct (IH Hin) as [i ->]. by exists (S i).
Qed.

(** In a list without duplicates [index] is the inverse of the lookup. *)
Lemma index_NoDup x l i :
  NoDup l → PyList.index x l = Ok i ↔ l !! i = Some x.
Proof.
  intros Hnd. split; [apply index_lookup|].
  intros Hi. destruct (index_elem x l) as [j Hj].
  { by eapply list_elem_of_lookup_2. }
  pose proof (index_lookup _ _ _ Hj) as Hj'.
  by rewrite (NoDup_lookup l i j x Hnd Hi Hj').
Qed.
End registry.

(** Whatever the order of the set, it lists the names of the first-seen
    list, each once. *)
Lemma set_to_list_first_seen (o : SetOrder) (names : list string) :
  set_to_list o names ≡ₚ first_seen names.
Proof.
  apply NoDup_Permutation;
    [apply set_to_list_NoDup|apply first_seen_NoDup|].
  intros x. by rewrite set_to_list_elem, first_seen_elem.
Qed.

(** C2, as the code has it. The species list holds every name that the
    reactions mention (read in input order, substrates before products)
    exactly once, and a name's index is its position in that list, so the
    indices are the numbers below the count of distinct names. The order is
    the iteration order of the set the names went through: with the order of
    insertion it is the first-seen order, and for one and the same order the
    same reactions give the same list. *)
Theorem species_registry (o : SetOrder) (reactions : list reaction)
    (names : list string) :
  all_names reactions = Ok names →
  ∃ species,
    species_of o reactions = Ok species
    ∧ NoDup species
    ∧ species ≡ₚ first_seen names
    ∧ (∀ name, name ∈ species ↔ name ∈ names)
    ∧ (∀ name i, PyList.index name species = Ok i ↔ species !! i = Some name)
    ∧ (∀ name, name ∈ names →
         ∃ i, PyList.index name species = Ok i ∧ i < length (first_seen names))
    ∧ species_of insertion_order reactions = Ok (first_seen names).
Proof.
  intros Hnames. exists (set_to_list o names).
  pose proof (set_to_list_NoDup o names) as Hnd.
  pose proof (set_to_list_elem o names) as Hel.
  pose proof (set_to_list_first_seen o names) as Hperm.
  unfold species_of. rewrite Hnames. simpl.
  split_and!; try done.
  - intros name i. by apply index_NoDup.
  - intros name Hin. destruct (index_elem name (set_to_list o names)) as [i Hi].
    { by apply Hel. }
    exists i. split; [done|]. rewrite <- Hperm. by eapply index_lt.
Qed.

Lemma species_registry_witness :
  all_names [("R00001", "C00031 + C00002 <=> C00003"); ("R00002", "C00003 <=> C00031")]
    = Ok ["C00031"; "C00002"; "C00003"; "C00003"; "C00031"]
  ∧ species_of table_order
      [("R00001", "C00031 + C00002 <=> C00003"); ("R00002", "C00003 <=> C00031")]
    = Ok ["C00031"; "C00003"; "C00002"]
  ∧ species_of insertion_order
      [("R00001", "C00031 + C00002 <=> C00003"); ("R00002", "C00003 <=> C00031")]
    = Ok ["C00031"; "C00002"; "C00003"].
Proof.
  split; [reflexivity|].
  destruct (species_registry table_order
    [("R00001", "C00031 + C00002 <=> C00003"); ("R00002", "C00003 <=> C00031")]
    _ eq_refl) as (species & E & _ & _ & _ & _ & _ & E').
  split; [|exact E']. reflexivity.
Defined.

(** C2, as stated, fails: the species list of the reaction
    [C00031 + C00002 <=> C00003] under the table order is not in first-seen
    order, and two set orders disagree on the same input. *)
Lemma species_order_counterexample :
  ¬ (∀ (o : SetOrder) (reactions : list reaction) (names : list string),
       all_names reactions = Ok names →
       species_of o reactions = Ok (first_seen names))
  ∧ species_of table_order [("R00001", "C00031 + C00002 <=> C00003")]
    ≠ species_of insertion_order [("R00001", "C00031 + C00002 <=> C00003")].
Proof.
  split.
  - intros H.
    specialize (H table_order [("R00001", "C00031 + C00002 <=> C00003")]
                  _ eq_refl).
    vm_compute in H. discriminate H.
  - vm_compute. discriminate.
Qed.

(** ** The derivative *)

Section mapM_facts.
Context {A B : Type} (f : A → res B).

Lemma res_mapM_total (g : A → B) (l : list A) :
  Forall (λ a, f a = Ok (g a)) l → res_mapM f l = Ok (map g l).
Proof.
  induction 1 as [|a l Ha _ IH]; simpl; [done|]. by rewrite Ha, IH.
Qed.

Lemma res_mapM_Forall (P : B → Prop) (l : list A) :
  Forall (λ a, ∃ b, f a = Ok b ∧ P b) l →
  ∃ bs, res_mapM f l = Ok bs ∧ Forall P bs.
Proof.
  induction 1 as [|a l (b & Hb & HP) _ (bs & IH & HPs)]; simpl.
  - by exists [].
  - exists (b :: bs). rewrite Hb, IH. by split; [|constructor].
Qed.
End mapM_facts.

Section kinetics_facts.
Implicit Types (y dydt : list Qc) (species : list string).

Lemma prod_acc l a : fold_left Qcmult l a = (a * prod l)%Qc.
Proof.
  unfold prod. revert a. induction l as [|x l IH]; intros a; simpl.
  - ring.
  - rewrite (IH (a * x)%Qc), (IH (1 * x)%Qc). ring.
Qed.

Lemma prod_nil : prod [] = 1%Qc.
Proof. reflexivity. Qed.

Lemma prod_cons x l : prod (x :: l) = (x * prod l)%Qc.
Proof. unfold prod at 1. simpl. rewrite prod_acc. ring. Qed.

(** The index comprehension never raises, and its indices are positions
    of the species list. *)
Lemma term_indices_ok species terms :
  ∃ indices, term_indices species terms = Ok indices
             ∧ Forall (λ i, i < length species) indices.
Proof.
  apply res_mapM_Forall, list.Forall_forall.
  intros s [Hin _]%list_elem_of_filter.
  destruct (index_elem _ _ Hin) as [i Hi].
  exists i. split; [done|]. by eapply index_lt.
Qed.

(** Nor does the comprehension of the flux factors: it reads [y] below
    its length only. *)
Lemma in_range_values_ok y indices :
  in_range_values y indices
    = Ok (map (λ i, y !!! i) (filter (λ i, i < length y) indices)).
Proof.
  apply res_mapM_total, list.Forall_forall.
  intros i [Hi _]%list_elem_of_filter. unfold PyList.getitem.
  by rewrite (list_lookup_lookup_total_lt y i Hi).
Qed.

Lemma filter_in_range (n : nat) indices :
  Forall (λ i, i < n) indices → filter (λ i, i < n) indices = indices.
Proof.
  induction 1 as [|i l Hi _ IH]; [done|].
  by rewrite filter_cons_True, IH.
Qed.

Lemma split_description_raises d e :
  split_description d = Raise e → e = ValueError.
Proof.
  unfold split_description, PyList.unpack2.
  destruct (PyStr.split "<=>" d) as [|a [|b [|c l]]]; simpl; congruence.
Qed.

(** The fluxes of a reaction that parses. *)
Lemma reaction_fluxes_ok species eqc y rid d subs prods k :
  split_description d = Ok (subs, prods) →
  eqc !! rid = Some k →
  ∃ si pi,
    term_indices species subs = Ok si
    ∧ term_indices species prods = Ok pi
    ∧ Forall (λ i, i < length species) si
    ∧ Forall (λ i, i < length species) pi
    ∧ reaction_fluxes species eqc y (rid, d)
      = Ok {| substrate_indices := si;
              product_indices := pi;
              forward_flux :=
                prod (map (λ i, y !!! i) (filter (λ i, i < length y) si));
              reverse_flux :=
                Qcmult k
                  (prod (map (λ i, y !!! i)
                           (filter (λ i, i < length y) pi))) |}.
Proof.
  intros Hd Hk.
  destruct (term_indices_ok species subs) as (si & Hsi & Hsilt).
  destruct (term_indices_ok species prods) as (pi & Hpi & Hpilt).
  exists si, pi. split_and!; try done.
  unfold reaction_fluxes, PyList.dict_getitem.
  rewrite Hd. simpl. rewrite Hsi. simpl. rewrite Hpi. simpl.
  rewrite Hk. simpl. by rewrite !in_range_values_ok.
Qed.

Lemma reaction_fluxes_malformed species eqc y rid d e :
  split_description d = Raise e →
  reaction_fluxes species eqc y (rid, d) = Raise ValueError.
Proof.
  intros Hd. pose proof (split_description_raises _ _ Hd) as ->.
  unfold reaction_fluxes. by rewrite Hd.
Qed.

Lemma isub_in_range dydt idx v :
  idx < length dydt →
  isub dydt idx v = Ok (alter (λ x, (x - v)%Qc) idx dydt).
Proof.
  intros Hlt. unfold isub, PyList.getitem, PyList.setitem.
  destruct (lookup_lt_is_Some_2 dydt idx Hlt) as [x Hx].
  rewrite Hx. simpl. rewrite decide_True by done.
  rewrite list_insert_alter. f_equal. apply list_alter_ext; [|done].
  intros z Hz. congruence.
Qed.

Lemma iadd_in_range dydt idx v :
  idx < length dydt →
  iadd dydt idx v = Ok (alter (λ x, (x + v)%Qc) idx dydt).
Proof.
  intros Hlt. unfold iadd, PyList.getitem, PyList.setitem.
  destruct (lookup_lt_is_Some_2 dydt idx Hlt) as [x Hx].
  rewrite Hx. simpl. rewrite decide_True by done.
  rewrite list_insert_alter. f_equal. apply list_alter_ext; [|done].
  intros z Hz. congruence.
Qed.

Lemma occurrences_cons i a indices :
  occurrences i (a :: indices)
    = if decide (a = i) then S (occurrences i indices)
      else occurrences i indices.
Proof.
  unfold occurrences. rewrite filter_cons. by destruct (decide (a = i)).
Qed.

(** A guarded update loop never raises; it applies the update to
    position [i] once per occurrence of [i]. *)
Lemma update_loop_ok op (f : Qc → Qc) y indices v dydt :
  (∀ d idx, idx < length d → op d idx v = Ok (alter f idx d)) →
  length dydt = length y →
  ∃ d', update_loop op y indices v dydt = Ok d'
        ∧ length d' = length y
        ∧ ∀ i, d' !! i = Nat.iter (occurrences i indices) f <$> dydt !! i.
Proof.
  intros Hop. unfold update_loop.
  revert dydt. induction indices as [|a l IH]; intros dydt Hlen.
  - exists dydt. split_and!; [done..|]. intros i. simpl.
    by destruct (dydt !! i).
  - cbn [res_foldM]. destruct (decide (a < length y)) as [Hlt|Hge].
    + rewrite Hop by lia. cbn [res_bind].
      destruct (IH (alter f a dydt)) as (d' & Hd' & Hl' & Hi').
      { by rewrite length_alter. }
      exists d'. split_and!; [done..|]. intros i.
      rewrite Hi', occurrences_cons, list_lookup_alter.
      destruct (decide (a = i)) as [->|Hne]; [|done].
      destruct (dydt !! i) as [x|]; simpl; [|done].
      f_equal. apply Nat.iter_swap.
    + cbn [res_bind]. destruct (IH dydt Hlen) as (d' & Hd' & Hl' & Hi').
      exists d'. split_and!; [done..|]. intros i.
      rewrite Hi', occurrences_cons.
      destruct (decide (a = i)) as [->|Hne]; [|done].
      rewrite (lookup_ge_None_2 dydt i) by lia. done.
Qed.

Lemma iter_add n (v x : Qc) :
  Nat.iter n (λ x, (x + v)%Qc) x = (x + Qc_of_Z (Z.of_nat n) * v)%Qc.
Proof.
  induction n as [|n IH].
  - rewrite Nat2Z.inj_0, Z2Qc_inj_0. cbn [Nat.iter nat_rect]. ring.
  - rewrite Nat.iter_succ, IH, Nat2Z.inj_succ, <- Z.add_1_r.
    rewrite Z2Qc_inj_add, Z2Qc_inj_1. ring.
Qed.

Lemma iter_sub n (v x : Qc) :
  Nat.iter n (λ x, (x - v)%Qc) x = (x - Qc_of_Z (Z.of_nat n) * v)%Qc.
Proof.
  induction n as [|n IH].
  - rewrite Nat2Z.inj_0, Z2Qc_inj_0. cbn [Nat.iter nat_rect]. ring.
  - rewrite Nat.iter_succ, IH, Nat2Z.inj_succ, <- Z.add_1_r.
    rewrite Z2Qc_inj_add, Z2Qc_inj_1. ring.
Qed.

(** One reaction that parses: no exception, and every entry of [dydt]
    moves by the contribution of the reaction. *)
Lemma kinetics_body_ok species eqc y r f dydt :
  reaction_fluxes species eqc y r = Ok f →
  length dydt = length y →
  ∃ d', kinetics_body species eqc y r dydt = Ok d'
        ∧ length d' = length y
        ∧ ∀ i, d' !! i = (λ x, (x + contribution f i)%Qc) <$> dydt !! i.
Proof.
  intros Hf Hlen. unfold kinetics_body. rewrite Hf. cbn [res_bind].
  destruct (update_loop_ok isub _ y (substrate_indices f)
              (forward_flux f - reverse_flux f)%Qc dydt
              (λ d idx, isub_in_range d idx _) Hlen)
    as (d1 & -> & Hl1 & Hi1).
  cbn [res_bind].
  destruct (update_loop_ok iadd _ y (product_indices f)
              (forward_flux f - reverse_flux f)%Qc d1
              (λ d idx, iadd_in_range d idx _) Hl1)
    as (d2 & -> & Hl2 & Hi2).
  exists d2. split_and!; [done..|]. intros i.
  rewrite Hi2, Hi1. destruct (dydt !! i) as [x|]; simpl; [|done].
  f_equal. rewrite iter_add, iter_sub. unfold contribution. ring.
Qed.

Lemma kinetics_diagnostics_cons rid d rs :
  kinetics_diagnostics ((rid, d) :: rs)
    = match split_description d with
      | Ok _ => kinetics_diagnostics rs
      | Raise _ =>
          ("Skipping malformed reaction: " +:+ d) :: kinetics_diagnostics rs
      end.
Proof.
  unfold kinetics_diagnostics. simpl. by destruct (split_description d).
Qed.

Lemma net_rate_cons species eqc y r rs i :
  net_rate species eqc y (r :: rs) i
    = match reaction_fluxes species eqc y r with
      | Ok f => (contribution f i + net_rate species eqc y rs i)%Qc
      | Raise _ => net_rate species eqc y rs i
      end.
Proof. reflexivity. Qed.

(** The loop over the reactions, from any [dydt] of the length of [y]. *)
Lemma kinetics_fold species eqc y reactions dydt out :
  (∀ r, r ∈ reactions → is_Some (eqc !! r.1)) →
  length dydt = length y →
  ∃ d', fold_left (kinetics_step species eqc y) reactions (Ok dydt, out)
          = (Ok d', out ++ kinetics_diagnostics reactions)
        ∧ length d' = length y
        ∧ ∀ i, d' !! i
               = (λ x, (x + net_rate species eqc y reactions i)%Qc)
                   <$> dydt !! i.
Proof.
  revert dydt out.
  induction reactions as [|[rid d] rs IH]; intros dydt out Hk Hlen.
  - exists dydt. simpl. rewrite app_nil_r. split_and!; [done..|].
    intros i. destruct (dydt !! i) as [x|]; simpl; [|done].
    f_equal. ring.
  - assert (Hk' : ∀ r, r ∈ rs → is_Some (eqc !! r.1)).
    { intros r Hr. apply Hk. by right. }
    destruct (Hk (rid, d)) as [k Hkd]; [by left|]. simpl in Hkd.
    cbn [fold_left kinetics_step]. rewrite kinetics_diagnostics_cons.
    destruct (split_description d) as [[subs prods]|e] eqn:Hd.
    + destruct (reaction_fluxes_ok species eqc y rid d subs prods k Hd Hkd)
        as (si & pi & _ & _ & _ & _ & Hf).
      destruct (kinetics_body_ok species eqc y (rid, d) _ dydt Hf Hlen)
        as (d1 & -> & Hl1 & Hi1).
      destruct (IH d1 out Hk' Hl1) as (d' & -> & Hl' & Hi').
      exists d'. split_and!; [done..|]. intros i.
      rewrite Hi', Hi1, net_rate_cons, Hf.
      destruct (dydt !! i) as [x|]; simpl; [|done].
      f_equal. ring.
    + pose proof (reaction_fluxes_malformed species eqc y rid d e Hd) as Hf.
      unfold kinetics_body. rewrite Hf. cbn [res_bind snd].
      destruct (IH dydt (out ++ ["Skipping malformed reaction: " +:+ d])
                  Hk' Hlen) as (d' & -> & Hl' & Hi').
      exists d'. split_and!; [|done|].
      * by rewrite <- app_assoc.
      * intros i. by rewrite Hi', net_rate_cons, Hf.
Qed.

Lemma equilibrium_constants_acc uniform reactions
    (acc : gmap string Qc * nat) id :
  is_Some (acc.1 !! id) ∨ id ∈ reactions.*1 →
  is_Some ((fold_left (λ (acc : gmap string Qc * nat) (r : reaction),
              (<[r.1 := uniform acc.2]> acc.1, S acc.2)) reactions acc).1
           !! id).
Proof.
  revert acc. induction reactions as [|r rs IH]; intros acc; simpl.
  - intros [?|?%elem_of_nil]; done.
  - intros H. apply IH. simpl. rewrite lookup_insert_is_Some.
    destruct (decide (r.1 = id)) as [->|Hne]; [by left; left|].
    destruct H as [H|H]; [by left; right|].
    apply elem_of_cons in H as [->|H]; [done|by right].
Qed.

(** Every reaction has its constant in the table. *)
Lemma equilibrium_constants_dom uniform reactions r :
  r ∈ reactions → is_Some (equilibrium_constants uniform reactions !! r.1).
Proof.
  intros Hr. apply equilibrium_constants_acc. right.
  by apply list_elem_of_fmap_2.
Qed.
End kinetics_facts.

(** Two rationals with the same reduced fraction are equal. *)
Ltac qc_eq := apply Qc_is_canon; reflexivity.
Ltac qc_list_eq := repeat (f_equal; try qc_eq).

Section derivative.
Implicit Types (y dydt : list Qc) (species : list string).

(** [reaction_kinetics] returns a vector of the length of [y] whose
    entries are the net rates, and prints one line per reaction that does
    not parse. *)
Lemma reaction_kinetics_spec species eqc reactions t y :
  (∀ r, r ∈ reactions → is_Some (eqc !! r.1)) →
  ∃ dydt,
    reaction_kinetics species eqc reactions t y
      = (Ok dydt, kinetics_diagnostics reactions)
    ∧ length dydt = length y
    ∧ ∀ i, i < length y → dydt !!! i = net_rate species eqc y reactions i.
Proof.
  intros Hk. unfold reaction_kinetics.
  destruct (kinetics_fold species eqc y reactions (zeros_like y) [] Hk)
    as (d & Hd & Hl & Hi).
  { unfold zeros_like. by rewrite length_replicate. }
  exists d. split_and!; [done..|]. intros i Hlt.
  apply list_lookup_total_correct. rewrite Hi. unfold zeros_like.
  rewrite lookup_replicate_2 by done. simpl. f_equal. ring.
Qed.

Lemma occurrences_nil i : occurrences i [] = 0.
Proof. reflexivity. Qed.

(** An index at or beyond the length of [y] is skipped by the update
    loop. *)
Lemma update_loop_in_range op y indices v dydt :
  update_loop op y indices v dydt
    = update_loop op y (filter (λ i, i < length y) indices) v dydt.
Proof.
  unfold update_loop. revert dydt.
  induction indices as [|a l IH]; intros dydt; [done|].
  rewrite filter_cons. cbn [res_foldM].
  destruct (decide (a < length y)) as [Ha|Ha].
  - cbn [res_foldM]. rewrite decide_True by done.
    destruct (op dydt a v); simpl; [apply IH|done].
  - simpl. apply IH.
Qed.
End derivative.




(** *** One substrate and one product, in binary64 *)

Section float_pair.
Import Float64.

(** [(0.0 - net) + (0.0 + net)]: zero for a finite [net], NaN for an
    infinite one and for NaN. *)
Lemma net_cancels (net : float64) :
  add (sub zero net) (add zero net)
  = if isfinite net then zero else S754_nan.
Proof.
  destruct net as [s|s| |s m e]; try (by destruct s); [done|].
  unfold add, sub, zero.
  cbn [SFsub SFadd isfinite].
  rewrite Z.min_id. unfold shl_align. rewrite Z.sub_diag. cbn [fst].
  destruct s; cbn [negb cond_Zopp].
  - rewrite Z.add_opp_diag_r. reflexivity.
  - rewrite Z.add_opp_diag_l. reflexivity.
Qed.

Lemma term_indices_single species a s :
  PyList.index (PyStr.strip a) species = Ok s →
  term_indices species [a] = Ok [s].
Proof.
  intros Hs. unfold term_indices.
  rewrite filter_cons_True.
  - cbn [filter list_filter res_mapM]. by rewrite Hs.
  - apply index_lookup in Hs. by eapply list_elem_of_lookup_2.
Qed.

Lemma in_range_values_single (y : list float64) s v :
  y !! s = Some v → in_range_values y [s] = Ok [v].
Proof.
  intros Hv. unfold in_range_values.
  rewrite filter_cons_True by (by eapply lookup_lt_Some).
  cbn [filter list_filter res_mapM]. unfold PyList.getitem. by rewrite Hv.
Qed.

(** The derivative of one reaction with one substrate index [s] and one
    product index [p]: the net flux is taken from [0.0] at [s] and added to
    [0.0] at [p]. *)
Lemma kinetics_pair species (k : float64) rid d a b s p (t : float64)
    (y : list float64) ys yp :
  split_description d = Ok ([a], [b]) →
  PyList.index (PyStr.strip a) species = Ok s →
  PyList.index (PyStr.strip b) species = Ok p →
  s ≠ p →
  y !! s = Some ys → y !! p = Some yp →
  (reaction_kinetics species {[rid := k]} [(rid, d)] t y).1
  = Ok (<[p := add zero (sub (prod [ys]) (mul k (prod [yp])))]>
          (<[s := sub zero (sub (prod [ys]) (mul k (prod [yp])))]>
             (zeros_like y))).
Proof.
  intros Hd Hs Hp Hne Hys Hyp.
  pose proof (lookup_lt_Some _ _ _ Hys) as Hsl.
  pose proof (lookup_lt_Some _ _ _ Hyp) as Hpl.
  unfold reaction_kinetics. cbn [fold_left kinetics_step].
  unfold kinetics_body, reaction_fluxes. rewrite Hd. cbn [res_bind].
  rewrite (term_indices_single _ _ _ Hs), (term_indices_single _ _ _ Hp).
  cbn [res_bind]. unfold PyList.dict_getitem. rewrite lookup_singleton_eq.
  cbn [res_bind].
  rewrite (in_range_values_single _ _ _ Hys), (in_range_values_single _ _ _ Hyp).
  cbn [res_bind substrate_indices product_indices forward_flux reverse_flux].
  set (net := sub (prod [ys]) (mul k (prod [yp]))).
  unfold update_loop. cbn [res_foldM].
  rewrite (decide_True (P := s < length y)) by done.
  unfold isub, PyList.getitem, PyList.setitem, zeros_like.
  rewrite lookup_replicate_2 by done. cbn [res_bind].
  rewrite decide_True by (by rewrite length_replicate).
  cbn [res_bind res_foldM].
  rewrite (decide_True (P := p < length y)) by done.
  unfold iadd, PyList.getitem, PyList.setitem.
  rewrite list_lookup_insert_ne by done.
  rewrite lookup_replicate_2 by done. cbn [res_bind].
  rewrite decide_True by (by rewrite length_insert, length_replicate).
  done.
Qed.
End float_pair.

(** C6. A model of one reaction with one substrate term and one product
    term that name different species, in the arithmetic of the program:
    whatever the order of the species list and whatever the state vector
    of that length, the derivative of the substrate is [0.0 - net] and the
    derivative of the product is [0.0 + net], where [net] is the forward
    flux less the reverse flux. The two add up to zero when [net] is
    finite. When it is not (the product of the constant and a large
    concentration overflows, or the state holds an infinity or a NaN) they
    add up to NaN. *)
Theorem pair_conservation (o : SetOrder) (uniform : nat → Float64.float64)
    (rid d a b : string) (species : list string) (t : Float64.float64)
    (y : list Float64.float64) :
  split_description d = Ok ([a], [b]) →
  PyStr.strip a ≠ PyStr.strip b →
  species_of o [(rid, d)] = Ok species →
  length y = length species →
  ∃ dydt s p ys yp,
    (Float64.reaction_kinetics species
       (Float64.equilibrium_constants uniform [(rid, d)]) [(rid, d)] t y).1
      = Ok dydt
    ∧ PyList.index (PyStr.strip a) species = Ok s
    ∧ PyList.index (PyStr.strip b) species = Ok p
    ∧ s ≠ p
    ∧ y !! s = Some ys ∧ y !! p = Some yp
    ∧ let net :=
        Float64.sub (Float64.prod [ys])
          (Float64.mul (uniform 0) (Float64.prod [yp])) in
      dydt !! s = Some (Float64.sub Float64.zero net)
      ∧ dydt !! p = Some (Float64.add Float64.zero net)
      ∧ Float64.add (Float64.sub Float64.zero net)
          (Float64.add Float64.zero net)
        = if Float64.isfinite net then Float64.zero else S754_nan.
Proof.
  intros Hd Hab Hsp Hlen.
  assert (Hnames : all_names [(rid, d)]
                   = Ok [PyStr.strip a; PyStr.strip b]).
  { unfold split_description, PyList.unpack2 in Hd.
    unfold all_names, reaction_names. cbn [res_mapM snd].
    destruct (PyStr.split "<=>" d) as [|lhs [|rhs [|? ?]]]; try done.
    simpl in Hd. injection Hd as Ha Hb.
    unfold PyList.getitem. simpl. by rewrite Ha, Hb. }
  unfold species_of in Hsp. rewrite Hnames in Hsp. simpl in Hsp.
  injection Hsp as <-.
  set (species := set_to_list o [PyStr.strip a; PyStr.strip b]) in *.
  assert (Ha : PyStr.strip a ∈ species).
  { apply set_to_list_elem. by left. }
  assert (Hb : PyStr.strip b ∈ species).
  { apply set_to_list_elem. right. by left. }
  destruct (index_elem _ _ Ha) as [s Hs].
  destruct (index_elem _ _ Hb) as [p Hp].
  assert (Hne : s ≠ p).
  { intros ->. apply index_lookup in Hs, Hp. congruence. }
  destruct (lookup_lt_is_Some_2 y s) as [ys Hys].
  { rewrite Hlen. by eapply index_lt. }
  destruct (lookup_lt_is_Some_2 y p) as [yp Hyp].
  { rewrite Hlen. by eapply index_lt. }
  eexists _, s, p, ys, yp.
  split_and!; [|done..|cbv zeta; split_and!].
  - change (Float64.equilibrium_constants uniform [(rid, d)])
      with (<[rid := uniform 0]> (∅ : gmap string Float64.float64)).
    rewrite insert_empty.
    by apply (kinetics_pair species (uniform 0) rid d a b s p t y ys yp).
  - rewrite list_lookup_insert_ne by done.
    apply list_lookup_insert_eq.
    unfold Float64.zeros_like. rewrite length_replicate.
    by eapply lookup_lt_Some.
  - apply list_lookup_insert_eq.
    rewrite length_insert. unfold Float64.zeros_like. rewrite length_replicate.
    by eapply lookup_lt_Some.
  - apply net_cancels.
Qed.

Lemma pair_conservation_witness :
  let y := [Float64.of_Z 3; Float64.of_Z 5] in
  split_description "A <=> B" = Ok (["A "], [" B"])
  ∧ PyStr.strip "A " ≠ PyStr.strip " B"
  ∧ species_of newest_first_order [("R00001", "A <=> B")] = Ok ["B"; "A"]
  ∧ length y = length ["B"; "A"]
  ∧ ∃ dydt,
      (Float64.reaction_kinetics ["B"; "A"]
         (Float64.equilibrium_constants (λ _, Float64.of_Z 2)
            [("R00001", "A <=> B")])
         [("R00001", "A <=> B")] Float64.zero y).1 = Ok dydt
      ∧ dydt = [Float64.of_Z (-1); Float64.of_Z 1]
      ∧ Float64.add (Float64.of_Z (-1)) (Float64.of_Z 1) = Float64.zero.
Proof.
  intros y.
  assert (H : PyStr.strip "A " ≠ PyStr.strip " B") by (vm_compute; discriminate).
  split_and!; [reflexivity|exact H|reflexivity|reflexivity|].
  destruct (pair_conservation newest_first_order (λ _, Float64.of_Z 2)
              "R00001" "A <=> B" "A " " B" ["B"; "A"] Float64.zero y
              eq_refl H eq_refl eq_refl)
    as (dydt & s & p & ys & yp & Hd & _).
  exists dydt. split; [exact Hd|].
  split; [|reflexivity].
  vm_compute in Hd. injection Hd as <-. reflexivity.
Defined.

(** C6, as stated, fails for a state vector on which the reverse flux
    overflows: for [A <=> B] with the constant 2.0 and the state
    [[0.0, 1e308]] the derivative is [[inf, -inf]], and the two entries
    add up to NaN, which equals nothing. *)
Lemma pair_overflow_counterexample :
  ¬ (∀ (y dydt : list Float64.float64) (ds dp : Float64.float64),
       length y = 2 →
       (Float64.reaction_kinetics ["A"; "B"]
          (Float64.equilibrium_constants (λ _, Float64.of_Z 2)
             [("R00001", "A <=> B")])
          [("R00001", "A <=> B")] Float64.zero y).1 = Ok dydt →
       dydt !! 0 = Some ds → dydt !! 1 = Some dp →
       Float64.eqb (Float64.add ds dp) Float64.zero = true)
  ∧ species_of insertion_order [("R00001", "A <=> B")] = Ok ["A"; "B"]
  ∧ (Float64.reaction_kinetics ["A"; "B"]
       (Float64.equilibrium_constants (λ _, Float64.of_Z 2)
          [("R00001", "A <=> B")])
       [("R00001", "A <=> B")] Float64.zero
       [Float64.zero; Float64.of_Z (10 ^ 308)]).1
    = Ok [S754_infinity false; S754_infinity true]
  ∧ Float64.add (S754_infinity false) (S754_infinity true) = S754_nan.
Proof.
  split_and!; [|reflexivity|by vm_compute|reflexivity].
  intros H.
  specialize (H [Float64.zero; Float64.of_Z (10 ^ 308)]
                [S754_infinity false; S754_infinity true]
                (S754_infinity false) (S754_infinity true) eq_refl).
  assert (Hk : (Float64.reaction_kinetics ["A"; "B"]
       (Float64.equilibrium_constants (λ _, Float64.of_Z 2)
          [("R00001", "A <=> B")])
       [("R00001", "A <=> B")] Float64.zero
       [Float64.zero; Float64.of_Z (10 ^ 308)]).1
    = Ok [S754_infinity false; S754_infinity true]) by (by vm_compute).
  specialize (H Hk eq_refl eq_refl). vm_compute in H. discriminate H.
Qed.

(** C8. For any state vector the derivative is computed without an
    exception, with [y] read and [dydt] written below the length of [y]
    only: the result has the length of [y]; the flux factors are the
    entries of [y] at the indices below that length, and an index at or
    beyond it changes neither a flux nor [dydt]. When [y] has one entry per
    species, every index of every reaction is below the length, so nothing
    is ever skipped. *)
Theorem kinetics_in_bounds (species : list string) (uniform : nat → Qc)
    (reactions : list reaction) (t : Qc) (y : list Qc) :
  (∃ dydt,
     reaction_kinetics species (equilibrium_constants uniform reactions)
       reactions t y = (Ok dydt, kinetics_diagnostics reactions)
     ∧ length dydt = length y
     ∧ ∀ i, length y ≤ i → dydt !! i = None)
  ∧ (∀ indices,
       in_range_values y indices
       = Ok (map (λ i, y !!! i) (filter (λ i, i < length y) indices)))
  ∧ (∀ i indices,
       length y ≤ i →
       in_range_values y (i :: indices) = in_range_values y indices
       ∧ ∀ op v dydt,
           update_loop op y (i :: indices) v dydt
           = update_loop op y indices v dydt)
  ∧ (length y = length species →
     ∀ r f,
       r ∈ reactions →
       reaction_fluxes species (equilibrium_constants uniform reactions) y r
         = Ok f →
       Forall (λ i, i < length y) (substrate_indices f)
       ∧ Forall (λ i, i < length y) (product_indices f)).
Proof.
  split_and!.
  - destruct (reaction_kinetics_spec species
                (equilibrium_constants uniform reactions) reactions t y)
      as (dydt & Hd & Hl & Hi).
    { intros r. apply equilibrium_constants_dom. }
    exists dydt. split_and!; [done..|].
    intros i Hge. apply lookup_ge_None_2. lia.
  - apply in_range_values_ok.
  - intros i indices Hge. split.
    + unfold in_range_values. by rewrite filter_cons_False by lia.
    + intros op v dydt.
      rewrite (update_loop_in_range op y (i :: indices)).
      rewrite (update_loop_in_range op y indices).
      by rewrite filter_cons_False by lia.
  - intros Hlen [rid d] f Hin Hf.
    destruct (split_description d) as [[subs prods]|e] eqn:Hd.
    + destruct (equilibrium_constants_dom uniform reactions _ Hin) as [k Hk].
      destruct (reaction_fluxes_ok species _ y rid d subs prods k Hd Hk)
        as (si & pi & _ & _ & Hsi & Hpi & Hf').
      rewrite Hf' in Hf. injection Hf as <-. simpl. by rewrite Hlen.
    + by rewrite (reaction_fluxes_malformed _ _ _ _ _ _ Hd) in Hf.
Qed.

Lemma kinetics_in_bounds_witness :
  reaction_kinetics ["A"; "B"]
    (equilibrium_constants (λ _, 2%Qc) [("R00001", "A <=> B")])
    [("R00001", "A <=> B")] 0%Qc [1%Qc]
  = (Ok [1%Qc], [])
  ∧ ∃ dydt,
      reaction_kinetics ["A"; "B"]
        (equilibrium_constants (λ _, 2%Qc) [("R00001", "A <=> B")])
        [("R00001", "A <=> B")] 0%Qc [1%Qc]
      = (Ok dydt, kinetics_diagnostics [("R00001", "A <=> B")])
      ∧ length dydt = length [1%Qc]
      ∧ ∀ i, length [1%Qc] ≤ i → dydt !! i = None.
Proof.
  split; [vm_compute; qc_list_eq|].
  exact (proj1 (kinetics_in_bounds ["A"; "B"] (λ _, 2%Qc)
                  [("R00001", "A <=> B")] 0%Qc [1%Qc])).
Defined.

(** ** The initial concentrations *)

Section initial_concentrations.
Context (o : SetOrder) (uniform : nat → Qc).

(** What [simulate_reaction_dynamics] does with the caller's list
    [l] at address [ic] before it calls the integrator. *)
Lemma solve_ivp_call_ok (reactions : list reaction) (ic : nat)
    (time_span : Qc * Qc) (h : heap) (l : list Qc) (species : list string) :
  h !! ic = Some l →
  species_of o reactions = Ok species →
  ∃ call,
    solve_ivp_call o uniform reactions ic time_span h
      = (Ok (call, species),
         if decide (length l < length species)
         then <[ic := l ++ replicate (length species - length l) 0%Qc]> h
         else h)
    ∧ ivp_y0 call
      = take (length species)
          (l ++ replicate (length species - length l) 0%Qc).
Proof.
  intros Hl Hsp. unfold solve_ivp_call. rewrite Hsp. cbv zeta.
  rewrite (lookup_total_correct h ic l Hl).
  eexists. split; [reflexivity|]. cbn [ivp_y0].
  destruct (decide (length l < length species)) as [Hlt|Hge]; cbv iota.
  - by rewrite lookup_total_insert_eq.
  - rewrite (lookup_total_correct h ic l Hl).
    replace (length species - length l) with 0 by lia.
    by rewrite app_nil_r.
Qed.
End initial_concentrations.

(** C5. The vector that reaches the integrator has one entry per species:
    a shorter list of initial concentrations is followed by zeros up to
    that length, a longer one is cut to its first entries. With three
    species and the list [[0.5]] the integrator receives [[0.5, 0, 0]]. *)
Theorem integrator_vector_length (o : SetOrder) (uniform : nat → Qc)
    (reactions : list reaction) (ic : nat) (time_span : Qc * Qc) (h : heap)
    (l : list Qc) (species : list string) :
  h !! ic = Some l →
  species_of o reactions = Ok species →
  ∃ call h',
    solve_ivp_call o uniform reactions ic time_span h
      = (Ok (call, species), h')
    ∧ length (ivp_y0 call) = length species
    ∧ (length l < length species →
       ivp_y0 call = l ++ replicate (length species - length l) 0%Qc)
    ∧ (length species ≤ length l → ivp_y0 call = take (length species) l)
    ∧ (reactions = [("R00001", "C00031 + C00002 <=> C00003")] →
       l = [Q2Qc (1 # 2)] →
       ivp_y0 call = [Q2Qc (1 # 2); 0%Qc; 0%Qc]).
Proof.
  intros Hl Hsp.
  destruct (solve_ivp_call_ok o uniform reactions ic time_span h l species
              Hl Hsp) as (call & Hcall & Hy0).
  assert (Hpad : length l < length species →
                 ivp_y0 call = l ++ replicate (length species - length l) 0%Qc).
  { intros Hlt. rewrite Hy0. apply take_ge.
    rewrite length_app, length_replicate. lia. }
  eexists call, _. split; [exact Hcall|]. split_and!.
  - rewrite Hy0, length_take, length_app, length_replicate. lia.
  - exact Hpad.
  - intros Hge. rewrite Hy0. by apply take_app_le.
  - intros -> ->.
    change (species_of o _)
      with (Ok (set_to_list o ["C00031"; "C00002"; "C00003"])) in Hsp.
    injection Hsp as <-.
    pose proof (set_to_list_first_seen o ["C00031"; "C00002"; "C00003"])
      as Hperm.
    apply Permutation_length in Hperm.
    change (length (first_seen ["C00031"; "C00002"; "C00003"])) with 3 in Hperm.
    rewrite Hpad by (rewrite Hperm; simpl; lia).
    rewrite Hperm. reflexivity.
Qed.

Lemma integrator_vector_length_witness :
  ({[7 := [Q2Qc (1 # 2)]]} : heap) !! 7 = Some [Q2Qc (1 # 2)]
  ∧ species_of table_order [("R00001", "C00031 + C00002 <=> C00003")]
    = Ok ["C00031"; "C00003"; "C00002"]
  ∧ ∃ call h',
      solve_ivp_call table_order (λ _, 2%Qc)
        [("R00001", "C00031 + C00002 <=> C00003")] 7 (0%Qc, Q2Qc 10%Q)
        {[7 := [Q2Qc (1 # 2)]]}
      = (Ok (call, ["C00031"; "C00003"; "C00002"]), h')
      ∧ ivp_y0 call = [Q2Qc (1 # 2); 0%Qc; 0%Qc].
Proof.
  assert (Hl : ({[7 := [Q2Qc (1 # 2)]]} : heap) !! 7 = Some [Q2Qc (1 # 2)])
    by reflexivity.
  split; [exact Hl|]. split; [reflexivity|].
  destruct (integrator_vector_length table_order (λ _, 2%Qc)
              [("R00001", "C00031 + C00002 <=> C00003")] 7 (0%Qc, Q2Qc 10%Q)
              {[7 := [Q2Qc (1 # 2)]]} [Q2Qc (1 # 2)]
              ["C00031"; "C00003"; "C00002"] Hl eq_refl)
    as (call & h' & Hcall & _ & _ & _ & Hex).
  exists call, h'. split; [exact Hcall|]. by apply Hex.
Defined.

(** C9. The list of initial concentrations that the caller passes is
    extended in place: when it is shorter than the species list, the
    caller's object holds afterwards its old entries followed by zeros, as
    many entries as there are species, and no other object changes; when it
    is at least that long, the heap is as before. Whatever the integrator
    returns, this is the heap after [simulate_reaction_dynamics]. *)
Theorem initial_concentrations_in_place (o : SetOrder) (uniform : nat → Qc)
    (solve_ivp : ivp → res solution)
    (reactions : list reaction) (ic : nat) (time_span : Qc * Qc) (h : heap)
    (l : list Qc) (species : list string) :
  h !! ic = Some l →
  species_of o reactions = Ok species →
  ∃ h',
    (simulate_reaction_dynamics o uniform solve_ivp reactions ic time_span h).2
      = h'
    ∧ (length l < length species →
       h' = <[ic := l ++ replicate (length species - length l) 0%Qc]> h
       ∧ ∃ l', h' !! ic = Some l' ∧ length l' = length species)
    ∧ (length species ≤ length l → h' = h ∧ h' !! ic = Some l).
Proof.
  intros Hl Hsp.
  destruct (solve_ivp_call_ok o uniform reactions ic time_span h l species
              Hl Hsp) as (call & Hcall & _).
  unfold simulate_reaction_dynamics. rewrite Hcall. cbn [snd].
  eexists. split; [reflexivity|]. split.
  - intros Hlt. rewrite decide_True by done. split; [done|].
    eexists. rewrite lookup_insert_eq. split; [done|].
    rewrite length_app, length_replicate. lia.
  - intros Hge. rewrite decide_False by lia. done.
Qed.

Lemma initial_concentrations_in_place_witness :
  ({[7 := [Q2Qc (1 # 2)]]} : heap) !! 7 = Some [Q2Qc (1 # 2)]
  ∧ species_of table_order [("R00001", "C00031 + C00002 <=> C00003")]
    = Ok ["C00031"; "C00003"; "C00002"]
  ∧ ∃ h',
      (simulate_reaction_dynamics table_order (λ _, 2%Qc)
         (λ _, Raise ValueError)
         [("R00001", "C00031 + C00002 <=> C00003")] 7 (0%Qc, Q2Qc 10%Q)
         {[7 := [Q2Qc (1 # 2)]]}).2 = h'
      ∧ h' !! 7 = Some [Q2Qc (1 # 2); 0%Qc; 0%Qc].
Proof.
  assert (Hl : ({[7 := [Q2Qc (1 # 2)]]} : heap) !! 7 = Some [Q2Qc (1 # 2)])
    by reflexivity.
  split; [exact Hl|]. split; [reflexivity|].
  destruct (initial_concentrations_in_place table_order (λ _, 2%Qc)
              (λ _, Raise ValueError)
              [("R00001", "C00031 + C00002 <=> C00003")] 7 (0%Qc, Q2Qc 10%Q)
              {[7 := [Q2Qc (1 # 2)]]} [Q2Qc (1 # 2)]
              ["C00031"; "C00003"; "C00002"] Hl eq_refl)
    as (h' & Hh' & Hshort & _).
  exists h'. split; [exact Hh'|].
  destruct Hshort as [-> _]; [simpl; lia|].
  by rewrite lookup_insert_eq.
Defined.

(** ** The change summary *)

Section change_summary.

Lemma Qcltb_lt x y : Qcltb x y = true ↔ (x < y)%Qc.
Proof. unfold Qcltb. rewrite Qclt_alt. by destruct (x ?= y)%Qc. Qed.

Lemma Qcltb_ge x y : Qcltb x y = false ↔ (y ≤ x)%Qc.
Proof.
  rewrite <- not_true_iff_false, Qcltb_lt.
  split; [apply Qcnot_lt_le|apply Qcle_not_lt].
Qed.



(** The label of a value, bin by bin: [(0, 0.1]], [(0.1, 1]], [(1, inf]]. *)
Lemma cut_magnitude x :
  cut x bins labels
  = if Qcltb 0 x then
      if Qcltb (Q2Qc (1 # 10)) x then
        if Qcltb 1 x then Some Major else Some Moderate
      else Some Minor
    else None.
Proof.
  unfold cut, bins, labels. cbn [searchsorted_left edge_ltb].
  destruct (Qcltb 0 x), (Qcltb (Q2Qc (1 # 10)) x), (Qcltb 1 x); reflexivity.
Qed.

Lemma res_mapM_lookup {A B} (f : A → res B) (l : list A) (bs : list B) :
  res_mapM f l = Ok bs →
  length bs = length l
  ∧ ∀ n b, bs !! n = Some b → ∃ a, l !! n = Some a ∧ f a = Ok b.
Proof.
  revert bs. induction l as [|a l IH]; intros bs; simpl.
  - intros [= <-]. split; [done|]. intros n b. by rewrite lookup_nil.
  - destruct (f a) as [b0|] eqn:Ea; simpl; [|done].
    destruct (res_mapM f l) as [bs0|]; simpl; [|done].
    intros [= <-]. destruct (IH bs0 eq_refl) as [Hlen Hl].
    split; [simpl; by rewrite Hlen|].
    intros [|n] b; simpl; [|by apply Hl].
    intros [= <-]. by exists a.
Qed.

End change_summary.

(** Order goals over [Qc] go to [lra] through the fractions beneath. *)
Ltac qc_consts :=
  repeat match goal with
  | H : context [Qred ?q] |- _ =>
      progress (let v := eval vm_compute in (Qred q) in
                change (Qred q) with v in H)
  | |- context [Qred ?q] =>
      progress (let v := eval vm_compute in (Qred q) in
                change (Qred q) with v)
  end.

Ltac qc_order :=
  repeat match goal with
  | H : Qcltb _ _ = true |- _ => apply Qcltb_lt in H
  | H : Qcltb _ _ = false |- _ => apply Qcltb_ge in H
  end;
  unfold Qclt, Qcle in *; cbn [this Q2Qc] in *; qc_consts; lra.







(** ** Malformed descriptions *)

Lemma network_fold reactions G out :
  ∃ G', fold_left network_step reactions (Ok G, out)
        = (Ok G', out ++ network_diagnostics reactions).
Proof.
  revert G out. induction reactions as [|[rid d] rs IH]; intros G out.
  - exists G. simpl. by rewrite app_nil_r.
  - unfold network_diagnostics. cbn [fold_left network_step omap list_omap snd].
    fold (network_diagnostics rs).
    destruct (split_description d) as [[subs prods]|e] eqn:Hd.
    + apply IH.
    + pose proof (split_description_raises _ _ Hd) as ->.
      destruct (IH G (out ++ ["Skipping malformed reaction description: " +:+ d]))
        as [G' ->].
      exists G'. by rewrite <- app_assoc.
Qed.

(** The graph builder never raises and prints one line per description that
    does not split in two. *)
Lemma build_reaction_network_ok reactions :
  ∃ G, build_reaction_network reactions = (Ok G, network_diagnostics reactions).
Proof. apply (network_fold reactions ∅ []). Qed.

Section malformed.
Import PyStr PyStrFacts.

Lemma reaction_names_raises r e :
  reaction_names r = Raise e → e = IndexError.
Proof.
  unfold reaction_names, PyList.getitem.
  destruct (split "<=>" r.2 !! 0); simpl; [|congruence].
  destruct (split "<=>" r.2 !! 1); simpl; congruence.
Qed.

Lemma reaction_names_no_separator r :
  ¬ occurs "<=>" r.2 → reaction_names r = Raise IndexError.
Proof.
  intros Hno%find_None. unfold reaction_names.
  by rewrite split_unfold, Hno.
Qed.

(** One description without [<=>] anywhere in the list is enough for the
    species list, and with it the simulation, to end in [IndexError]. *)
Lemma species_of_no_separator o reactions r :
  r ∈ reactions → ¬ occurs "<=>" r.2 →
  species_of o reactions = Raise IndexError.
Proof.
  intros Hin Hno. unfold species_of, all_names.
  assert (res_mapM reaction_names reactions = Raise IndexError) as ->; [|done].
  induction reactions as [|r' rs IH]; [by apply elem_of_nil in Hin|].
  simpl. destruct (reaction_names r') as [ns|e] eqn:E.
  - apply elem_of_cons in Hin as [->|Hin].
    + rewrite reaction_names_no_separator in E; done.
    + simpl. by rewrite IH.
  - simpl. by rewrite (reaction_names_raises _ _ E).
Qed.

(** The two loops with a [try] print one line per description that does
    not split in two and keep going: the lines and the reactions that
    parse add up to the input. *)
Lemma kinetics_diagnostics_count reactions :
  length (kinetics_diagnostics reactions)
  + length (filter (λ r : reaction, is_ok (split_description r.2)) reactions)
  = length reactions.
Proof.
  induction reactions as [|[rid d] rs IH]; [done|].
  rewrite kinetics_diagnostics_cons, filter_cons. cbn [snd].
  destruct (decide (is_ok (split_description d))) as [[p Hp]|Hn].
  - rewrite Hp. simpl. lia.
  - destruct (split_description d) as [p|e]; [by destruct Hn; exists p|].
    simpl. lia.
Qed.
End malformed.

(** C3 against the code. The graph builder and the derivative print a line
    for the description [malformed_line] and carry on, but the species list
    of [simulate_reaction_dynamics] reads the second piece of the split
    without a guard: the same input ends the simulation in [IndexError],
    before anything is integrated. A description with two separators passes
    the species list silently, with its first two sides registered. *)
Theorem malformed_description_raises (o : SetOrder) (uniform : nat → Qc)
    (solve_ivp : ivp → res solution) (ic : nat) (time_span : Qc * Qc)
    (h : heap) (species : list string) (eqc : gmap string Qc) (t : Qc)
    (y : list Qc) :
  build_reaction_network
    [("R00001", "C00031 + C00002 <=> C00003"); ("R00002", "malformed_line")]
  = (Ok {[("C00031", "C00003") := "R00001"; ("C00002", "C00003") := "R00001"]},
     ["Skipping malformed reaction description: malformed_line"])
  ∧ reaction_kinetics species eqc [("R00002", "malformed_line")] t y
    = (Ok (zeros_like y), ["Skipping malformed reaction: malformed_line"])
  ∧ species_of o
      [("R00001", "C00031 + C00002 <=> C00003"); ("R00002", "malformed_line")]
    = Raise IndexError
  ∧ simulate_reaction_dynamics o uniform solve_ivp
      [("R00001", "C00031 + C00002 <=> C00003"); ("R00002", "malformed_line")]
      ic time_span h
    = (Raise IndexError, h)
  ∧ species_of o [("R00003", "A <=> B <=> C")] = Ok (set_to_list o ["A"; "B"]).
Proof.
  split_and!.
  - by vm_compute.
  - reflexivity.
  - reflexivity.
  - reflexivity.
  - reflexivity.
Qed.

(** ** The fetched lines *)

Section fetch_facts.
Import PyStr PyStrFacts.

Lemma str_contains_occurs sub s : str_contains sub s = true ↔ occurs sub s.
Proof.
  unfold str_contains. rewrite occurs_find.
  destruct (find sub s); split; (done || by intros []).
Qed.

(** A line with a tab is cut into an id without a tab and the rest. *)
Lemma fetch_step_tab parsed skipped r :
  occurs tab r →
  ∃ rid d, fetch_step (parsed, skipped) r = Ok (parsed ++ [(rid, d)], skipped)
           ∧ r = rid +:+ tab +:+ d ∧ ¬ occurs tab rid.
Proof.
  intros Hocc. unfold fetch_step, split_once.
  rewrite (proj2 (str_contains_occurs tab r) Hocc).
  apply occurs_find in Hocc as [[rid d] Hf]. rewrite Hf. simpl.
  exists rid, d. split_and!; [done|by apply find_Some|].
  by apply (find_leftmost tab r rid d).
Qed.

Lemma fetch_step_no_tab parsed skipped r :
  ¬ occurs tab r → fetch_step (parsed, skipped) r = Ok (parsed, skipped ++ [r]).
Proof.
  intros Hno. unfold fetch_step.
  destruct (str_contains tab r) eqn:E; [|done].
  by apply str_contains_occurs in E.
Qed.

Lemma fetch_fold lines parsed skipped :
  ∃ parsed' skipped',
    res_foldM fetch_step (parsed, skipped) lines
      = Ok (parsed ++ parsed', skipped ++ skipped')
    ∧ map (λ p : reaction, p.1 +:+ tab +:+ p.2) parsed'
      = filter (λ r, occurs tab r) lines
    ∧ skipped' = filter (λ r, ¬ occurs tab r) lines
    ∧ Forall (λ p : reaction, ¬ occurs tab p.1) parsed'.
Proof.
  revert parsed skipped. induction lines as [|r lines IH]; intros parsed skipped.
  - exists [], []. by rewrite !List.app_nil_r.
  - cbn [res_foldM]. rewrite !filter_cons.
    destruct (decide (occurs tab r)) as [Hocc|Hno].
    + destruct (fetch_step_tab parsed skipped r Hocc) as (rid & d & -> & Hr & Hid).
      cbn [res_bind].
      destruct (IH (parsed ++ [(rid, d)]) skipped)
        as (parsed' & skipped' & -> & Hp & Hs & Hf).
      exists ((rid, d) :: parsed'), skipped'.
      rewrite <- List.app_assoc. split_and!; [done| |by rewrite decide_False by tauto|by constructor].
      simpl. by rewrite Hp, Hr.
    + rewrite (fetch_step_no_tab parsed skipped r Hno). cbn [res_bind].
      destruct (IH parsed (skipped ++ [r]))
        as (parsed' & skipped' & -> & Hp & Hs & Hf).
      exists parsed', (r :: skipped').
      rewrite <- List.app_assoc. split_and!; [done|done| |done].
      rewrite decide_True by done. by rewrite Hs.
Qed.

Lemma join_result_lines results : join newline (result_lines results) = results.
Proof.
  unfold result_lines. destruct (decide (results = "")) as [->|_]; [done|].
  by apply join_split.
Qed.

Lemma filter_length_partition {A} (P : A → Prop) `{∀ x, Decision (P x)}
    (l : list A) :
  length (filter P l) + length (filter (λ x, ¬ P x) l) = length l.
Proof.
  induction l as [|x l IH]; [done|]. rewrite !filter_cons.
  destruct (decide (P x)).
  - rewrite decide_False by tauto. simpl. lia.
  - rewrite decide_True by done. simpl. lia.
Qed.

(** A one-character separator at the end of a string closes one more,
    empty, piece. *)
Lemma find_char_snoc c s :
  find (String c "") (s +:+ String c "")
  = match find (String c "") s with
    | Some (b, a) => Some (b, a +:+ String c "")
    | None => Some (s, "")
    end.
Proof.
  induction s as [|b s IH].
  - rewrite app_nil_l, !find_unfold. cbn [strip_prefix].
    by rewrite Ascii.eqb_refl.
  - rewrite app_cons, (find_unfold _ (String b (s +:+ String c ""))),
      (find_unfold _ (String b s)).
    cbn [strip_prefix]. destruct (Ascii.eqb c b); [done|].
    rewrite IH. by destruct (find (String c "") s) as [[b0 a]|].
Qed.

Lemma split_char_snoc c s :
  split (String c "") (s +:+ String c "") = split (String c "") s ++ [""].
Proof.
  remember (String.length s) as n eqn:Hn. revert s Hn.
  induction n as [n IH] using lt_wf_ind. intros s ->.
  rewrite (split_unfold _ (s +:+ String c "")), (split_unfold _ s) by done.
  rewrite find_char_snoc.
  destruct (find (String c "") s) as [[b a]|] eqn:E; [|done].
  cbn [app]. f_equal. eapply IH; [|done].
  by apply (find_shorter (String c "") s b a).
Qed.

(** The function never raises; what it returns and what it skips. *)
Lemma fetch_ok (tabulate : list reaction → string) (results molecule_id : string) :
  ∃ parsed skipped,
    fetch_reactions_for_molecule tabulate results molecule_id
      = (Ok parsed, fetch_report tabulate molecule_id parsed skipped)
    ∧ map (λ p : reaction, p.1 +:+ tab +:+ p.2) parsed
      = filter (λ r, occurs tab r) (result_lines results)
    ∧ skipped = filter (λ r, ¬ occurs tab r) (result_lines results)
    ∧ Forall (λ p : reaction, ¬ occurs tab p.1) parsed.
Proof.
  destruct (fetch_fold (result_lines results) [] [])
    as (parsed & skipped & Hloop & Hp & Hs & Hf).
  exists parsed, skipped. unfold fetch_reactions_for_molecule, fetch_loop.
  rewrite Hloop. by simpl.
Qed.
End fetch_facts.

(** X1. For a text answer of the database (a [str], which is what
    [kegg.find] returns when the request succeeds): the lines of the
    answer, joined by newlines, are the answer. On such an answer the
    function ends without an exception; it returns one pair per line with
    a tab, in order: the id is the text before the first tab and holds no
    tab, and id, tab and description give the line back. The skipped lines
    are the lines without a tab, in order, and every line is returned or
    skipped. *)
Theorem fetch_partition (tabulate : list reaction → string)
    (results molecule_id : string) :
  PyStr.join newline (result_lines results) = results
  ∧ ∃ parsed skipped,
      fetch_reactions_for_molecule tabulate results molecule_id
        = (Ok parsed, fetch_report tabulate molecule_id parsed skipped)
      ∧ map (λ p : reaction, p.1 +:+ tab +:+ p.2) parsed
        = filter (λ r, PyStr.occurs tab r) (result_lines results)
      ∧ skipped = filter (λ r, ¬ PyStr.occurs tab r) (result_lines results)
      ∧ Forall (λ p : reaction, ¬ PyStr.occurs tab p.1) parsed
      ∧ length parsed + length skipped = length (result_lines results).
Proof.
  split; [apply join_result_lines|].
  destruct (fetch_ok tabulate results molecule_id)
    as (parsed & skipped & Hfetch & Hp & Hs & Hf).
  exists parsed, skipped. split_and!; [done..|].
  rewrite <- (length_map (λ p : reaction, p.1 +:+ tab +:+ p.2) parsed).
  rewrite Hp, Hs. apply filter_length_partition.
Qed.

(** X2. An answer that ends in a newline, as the answers of the database
    do, has an empty last line: the function puts it last among the skipped
    lines and its report ends with the entry of that line. *)
Theorem fetch_trailing_newline (tabulate : list reaction → string)
    (s molecule_id : string) :
  ∃ parsed skipped,
    fetch_reactions_for_molecule tabulate (s +:+ newline) molecule_id
      = (Ok parsed, fetch_report tabulate molecule_id parsed skipped)
    ∧ last skipped = Some ""
    ∧ last (fetch_report tabulate molecule_id parsed skipped) = Some " - ".
Proof.
  destruct (fetch_ok tabulate (s +:+ newline) molecule_id)
    as (parsed & skipped & Hf & _ & Hs & _).
  exists parsed, skipped. split; [done|].
  assert (Hlast : last skipped = Some "").
  { rewrite Hs. unfold result_lines. rewrite decide_False by by destruct s.
    unfold newline. rewrite split_char_snoc, filter_app, filter_cons_True.
    - rewrite filter_nil. apply last_snoc.
    - by apply PyStrFacts.find_None. }
  split; [done|].
  apply last_Some in Hlast as [l' ->].
  unfold fetch_report. destruct (l' ++ [""]) as [|x l] eqn:E.
  { by destruct l'. }
  rewrite <- E. rewrite !last_app.
  replace (last ((newline +:+ "Skipped lines due to formatting issues:")
                   :: map (λ line, " - " +:+ line) (l' ++ [""])))
    with (Some " - "); [done|].
  rewrite map_app. cbn [map]. by rewrite app_comm_cons, last_snoc.
Qed.

(** ** The reaction graph *)

Section network_facts.
Implicit Types (G : digraph) (e : string * string).

Lemma add_products_lookup G u prods rid e :
  fold_left (λ G p, add_edge G u (PyStr.strip p) rid) prods G !! e
  = if decide (e.1 = u ∧ e.2 ∈ map PyStr.strip prods) then Some rid
    else G !! e.
Proof.
  revert G. induction prods as [|p prods IH]; intros G; cbn [fold_left map].
  - rewrite decide_False; [done|]. intros [_ H]. by apply elem_of_nil in H.
  - rewrite IH. unfold add_edge.
    destruct (decide (e.1 = u ∧ e.2 ∈ map PyStr.strip prods)) as [[Hu Hin]|Hn].
    + rewrite decide_True; [done|]. split; [done|by right].
    + destruct (decide (e = (u, PyStr.strip p))) as [->|Hne].
      * rewrite lookup_insert_eq, decide_True; [done|]. split; [done|by left].
      * rewrite lookup_insert_ne by done.
        rewrite decide_False; [done|]. intros [Hu Hin].
        apply elem_of_cons in Hin as [Hp|Hin]; [|tauto].
        apply Hne. destruct e; simpl in *; congruence.
Qed.

Lemma add_edges_lookup G subs prods rid e :
  fold_left (λ G s,
    fold_left (λ G p, add_edge G (PyStr.strip s) (PyStr.strip p) rid) prods G)
    subs G !! e
  = if decide (e.1 ∈ map PyStr.strip subs ∧ e.2 ∈ map PyStr.strip prods)
    then Some rid else G !! e.
Proof.
  revert G. induction subs as [|s subs IH]; intros G; cbn [fold_left map].
  - rewrite decide_False; [done|]. intros [H _]. by apply elem_of_nil in H.
  - rewrite IH, add_products_lookup.
    destruct (decide (e.1 ∈ map PyStr.strip subs ∧ e.2 ∈ map PyStr.strip prods))
      as [[Hs Hp]|Hn].
    + rewrite decide_True; [done|]. split; [by right|done].
    + destruct (decide (e.1 = PyStr.strip s ∧ e.2 ∈ map PyStr.strip prods))
        as [[Hs Hp]|Hn'].
      * rewrite decide_True; [done|]. split; [rewrite Hs; by left|done].
      * rewrite decide_False; [done|]. intros [Hs Hp].
        apply elem_of_cons in Hs as [Hs|Hs]; tauto.
Qed.

(** One reaction: it labels its own edges and leaves the others. *)
Lemma network_step_lookup G out r :
  ∃ G' out', network_step (Ok G, out) r = (Ok G', out')
    ∧ (∀ e, has_edge r e → G' !! e = Some r.1)
    ∧ (∀ e, ¬ has_edge r e → G' !! e = G !! e).
Proof.
  destruct r as [rid d]. cbn [network_step].
  destruct (split_description d) as [[subs prods]|err] eqn:Hd.
  - eexists _, _. split; [done|]. split; intros e He; rewrite add_edges_lookup.
    + destruct He as (subs' & prods' & Hd' & Hs & Hp). cbn [snd] in Hd'.
      rewrite Hd in Hd'. injection Hd' as <- <-. by rewrite decide_True.
    + rewrite decide_False; [done|]. intros [Hs Hp]. apply He.
      by exists subs, prods.
  - pose proof (split_description_raises _ _ Hd) as ->.
    eexists _, _. split; [done|]. split; [|done].
    intros e (subs & prods & Hd' & _). cbn [snd] in Hd'. congruence.
Qed.

Lemma network_fold_edges reactions G out :
  ∃ G' out',
    fold_left network_step reactions (Ok G, out) = (Ok G', out')
    ∧ (∀ e, (∀ r, r ∈ reactions → ¬ has_edge r e) → G' !! e = G !! e)
    ∧ (∀ rs1 r rs2 e,
         reactions = rs1 ++ r :: rs2 →
         has_edge r e →
         (∀ r', r' ∈ rs2 → ¬ has_edge r' e) →
         G' !! e = Some r.1).
Proof.
  revert G out. induction reactions as [|r0 rs IH]; intros G out.
  - exists G, out. split_and!; [done|done|].
    intros rs1 r rs2 e Heq. by destruct rs1.
  - cbn [fold_left].
    destruct (network_step_lookup G out r0) as (G1 & out1 & -> & Hown & Hother).
    destruct (IH G1 out1) as (G' & out' & -> & Hnone & Hlast).
    exists G', out'. split_and!; [done| |].
    + intros e Hno. rewrite Hnone, Hother; [done| |].
      * apply Hno. by left.
      * intros r Hr. apply Hno. by right.
    + intros rs1 r rs2 e Heq He Hno. destruct rs1 as [|r1 rs1].
      * injection Heq as <- <-. rewrite Hnone by done. by apply Hown.
      * injection Heq as <- ->. by eapply Hlast.
Qed.

Lemma network_diagnostics_cons rid d rs :
  network_diagnostics ((rid, d) :: rs)
  = match split_description d with
    | Ok _ => network_diagnostics rs
    | Raise _ =>
        ("Skipping malformed reaction description: " +:+ d)
        :: network_diagnostics rs
    end.
Proof.
  unfold network_diagnostics. simpl. by destruct (split_description d).
Qed.

Lemma network_diagnostics_filter reactions :
  network_diagnostics reactions
  = map (λ r : reaction, "Skipping malformed reaction description: " +:+ r.2)
      (filter (λ r : reaction, ¬ is_ok (split_description r.2)) reactions).
Proof.
  induction reactions as [|[rid d] rs IH]; [done|].
  rewrite network_diagnostics_cons, filter_cons. cbn [snd].
  destruct (split_description d) as [p|e] eqn:Hd.
  - rewrite decide_False; [apply IH|]. intros H. apply H. by exists p.
  - rewrite decide_True; [|by intros [p ?]]. cbn [map snd]. by rewrite <- IH.
Qed.
End network_facts.

(** X3. The graph builder never raises. It prints one line for every
    description that does not consist of two sides around a single
    separator, in input order, and for no other. *)
Theorem network_never_raises (reactions : list reaction) :
  (∃ G,
     build_reaction_network reactions
     = (Ok G,
        map (λ r : reaction,
               "Skipping malformed reaction description: " +:+ r.2)
          (filter (λ r : reaction, ¬ is_ok (split_description r.2))
             reactions)))
  ∧ ∀ d, is_ok (split_description d)
         ↔ ∃ lhs rhs, d = lhs +:+ "<=>" +:+ rhs
                      ∧ ¬ PyStr.occurs "<=>" lhs ∧ ¬ PyStr.occurs "<=>" rhs.
Proof.
  split; [|apply split_description_ok_iff].
  destruct (build_reaction_network_ok reactions) as [G HG].
  exists G. by rewrite HG, network_diagnostics_filter.
Qed.

(** X4. The graph has an edge from [u] to [v] exactly when some reaction
    that parses has [u] among its stripped substrates and [v] among its
    stripped products; the edge carries the id of the last such reaction of
    the input. *)
Theorem network_edges (reactions : list reaction) :
  ∃ G,
    (build_reaction_network reactions).1 = Ok G
    ∧ (∀ e, is_Some (G !! e) ↔ ∃ r, r ∈ reactions ∧ has_edge r e)
    ∧ (∀ rs1 r rs2 e,
         reactions = rs1 ++ r :: rs2 →
         has_edge r e →
         (∀ r', r' ∈ rs2 → ¬ has_edge r' e) →
         G !! e = Some r.1).
Proof.
  unfold build_reaction_network.
  destruct (network_fold_edges reactions ∅ []) as (G & out & -> & Hnone & Hlast).
  exists G. split_and!; [done| |exact Hlast].
  intros e. split.
  - intros HG.
    assert (Hex : ¬ ∀ r, r ∈ reactions → ¬ has_edge r e).
    { intros Hno. rewrite (Hnone e Hno), lookup_empty in HG. by destruct HG. }
    clear -Hex. induction reactions as [|r rs IH].
    + destruct Hex. intros r Hr. by apply elem_of_nil in Hr.
    + destruct (split_description r.2) as [[subs prods]|err] eqn:Hd.
      * destruct (decide (e.1 ∈ map PyStr.strip subs
                          ∧ e.2 ∈ map PyStr.strip prods)) as [[Hs Hp]|Hn].
        { exists r. split; [by left|]. by exists subs, prods. }
        destruct IH as (r' & Hr' & He').
        { intros Hno. apply Hex. intros r' [->|Hr']%elem_of_cons; [|by apply Hno].
          intros (subs' & prods' & Hd' & Hs & Hp).
          rewrite Hd in Hd'. injection Hd' as <- <-. tauto. }
        exists r'. split; [by right|done].
      * destruct IH as (r' & Hr' & He').
        { intros Hno. apply Hex. intros r' [->|Hr']%elem_of_cons; [|by apply Hno].
          intros (subs' & prods' & Hd' & _). congruence. }
        exists r'. split; [by right|done].
  - intros (r & Hr & He).
    assert (Hlastr : ∃ rs1 r' rs2, reactions = rs1 ++ r' :: rs2
                     ∧ has_edge r' e ∧ ∀ r'', r'' ∈ rs2 → ¬ has_edge r'' e).
    { clear -Hr He. revert r Hr He.
      induction reactions as [|r0 rs IH]; intros r Hr He.
      { by apply elem_of_nil in Hr. }
      assert (Hdec : (∃ r', r' ∈ rs ∧ has_edge r' e)
                     ∨ ∀ r', r' ∈ rs → ¬ has_edge r' e).
      { clear. induction rs as [|r1 rs IH].
        - right. intros r' Hr'. by apply elem_of_nil in Hr'.
        - destruct IH as [(r' & Hr' & He')|Hno].
          { left. exists r'. split; [by right|done]. }
          destruct (split_description r1.2) as [[subs prods]|err] eqn:Hd.
          + destruct (decide (e.1 ∈ map PyStr.strip subs
                              ∧ e.2 ∈ map PyStr.strip prods)) as [[Hs Hp]|Hn].
            * left. exists r1. split; [by left|]. by exists subs, prods.
            * right. intros r' [->|Hr']%elem_of_cons; [|by apply Hno].
              intros (subs' & prods' & Hd' & Hs & Hp).
              rewrite Hd in Hd'. injection Hd' as <- <-. tauto.
          + right. intros r' [->|Hr']%elem_of_cons; [|by apply Hno].
            intros (subs' & prods' & Hd' & _). congruence. }
      destruct Hdec as [(r' & Hr' & He')|Hno].
      - destruct (IH r' Hr' He') as (rs1 & r'' & rs2 & -> & He'' & Hno).
        by exists (r0 :: rs1), r'', rs2.
      - apply elem_of_cons in Hr as [->|Hr]; [|by destruct (Hno r Hr)].
        by exists [], r0, rs. }
    destruct Hlastr as (rs1 & r' & rs2 & Heq & He' & Hno).
    rewrite (Hlast rs1 r' rs2 e Heq He' Hno). by eexists.
Qed.

Lemma network_edges_witness :
  ∃ G,
    (build_reaction_network
       [("R00001", "A <=> B"); ("R00002", "A + C <=> B")]).1 = Ok G
    ∧ G !! ("A", "B") = Some "R00002".
Proof.
  destruct (network_edges [("R00001", "A <=> B"); ("R00002", "A + C <=> B")])
    as (G & HG & _ & Hlast).
  exists G. split; [exact HG|].
  apply (Hlast [("R00001", "A <=> B")] ("R00002", "A + C <=> B") []
           ("A", "B")).
  - reflexivity.
  - exists ["A"; "C "], [" B"]. split; [by vm_compute|].
    split; apply (bool_decide_unpack _); by vm_compute.
  - intros r' Hr'. by apply elem_of_nil in Hr'.
Defined.

(** ** Terms and names *)

Section term_facts.
Import PyStr PyStrFacts.

Lemma occurs_inside x t u v : occurs x t → occurs x (u +:+ t +:+ v).
Proof.
  intros (b & a & ->). exists (u +:+ b), (a +:+ v).
  by rewrite !app_assoc.
Qed.

(** No piece of a split holds the separator. *)
Lemma split_pieces_clean sep s :
  sep ≠ "" → Forall (λ t, ¬ occurs sep t) (split sep s).
Proof.
  intros Hsep. remember (String.length s) as n eqn:Hn. revert s Hn.
  induction n as [n IH] using lt_wf_ind. intros s ->.
  rewrite split_unfold by done.
  destruct (find sep s) as [[b a]|] eqn:E.
  - constructor; [by eapply find_leftmost|].
    eapply IH; [|done]. by eapply find_shorter.
  - constructor; [by apply find_None|constructor].
Qed.

(** Every piece of a split is a part of the string. *)
Lemma split_piece_inside sep s t :
  sep ≠ "" → t ∈ split sep s → ∃ u v, s = u +:+ t +:+ v.
Proof.
  intros Hsep. remember (String.length s) as n eqn:Hn. revert s Hn.
  induction n as [n IH] using lt_wf_ind. intros s ->.
  rewrite split_unfold by done.
  destruct (find sep s) as [[b a]|] eqn:E.
  - pose proof (find_shorter _ _ _ _ Hsep E) as Hlt.
    apply find_Some in E as ->.
    intros [->|Hin]%elem_of_cons.
    + by exists "", (sep +:+ a).
    + destruct (IH _ Hlt a eq_refl Hin) as (u & v & ->).
      exists (b +:+ sep +:+ u), v. by rewrite !app_assoc.
  - intros ->%list_elem_of_singleton. exists "", "". by rewrite app_nil_r.
Qed.

Lemma strip_inside x t : occurs x (strip t) → occurs x t.
Proof.
  intros H. destruct (strip_decomp t) as (l & r & _ & _ & Ht).
  rewrite Ht. by apply occurs_inside.
Qed.

(** The stripped terms of one side hold neither separator when the side
    holds no [<=>]. *)
Lemma side_terms_clean side t :
  ¬ occurs "<=>" side → t ∈ split " + " side →
  ¬ occurs " + " t ∧ ¬ occurs "<=>" t
  ∧ ¬ occurs " + " (strip t) ∧ ¬ occurs "<=>" (strip t).
Proof.
  intros Hside Hin.
  assert (H1 : ¬ occurs " + " t).
  { pose proof (split_pieces_clean " + " side) as Hc.
    rewrite list.Forall_forall in Hc. by apply Hc. }
  assert (H2 : ¬ occurs "<=>" t).
  { destruct (split_piece_inside " + " side t) as (u & v & ->); [done..|].
    intros H. apply Hside. by apply occurs_inside. }
  split_and!; [done|done| |]; intros H%strip_inside; done.
Qed.

Lemma elem_of_concat {A} (x : A) (ls : list (list A)) :
  x ∈ concat ls ↔ ∃ l, l ∈ ls ∧ x ∈ l.
Proof.
  induction ls as [|l ls IH]; simpl.
  - split; [by intros ?%elem_of_nil|]. by intros (l & ?%elem_of_nil & _).
  - rewrite elem_of_app, IH. split.
    + intros [H|(l' & Hl' & Hx)]; [exists l; split; [by left|done]|].
      exists l'. split; [by right|done].
    + intros (l' & [->|Hl']%elem_of_cons & Hx); [by left|].
      right. by exists l'.
Qed.

(** The names of one reaction, read off the first two pieces of its
    description. *)
Lemma reaction_names_inv r names :
  reaction_names r = Ok names →
  ∃ lhs rhs,
    split "<=>" r.2 !! 0 = Some lhs ∧ split "<=>" r.2 !! 1 = Some rhs
    ∧ names = map strip (split " + " lhs) ++ map strip (split " + " rhs).
Proof.
  unfold reaction_names, PyList.getitem.
  destruct (split "<=>" r.2 !! 0) as [lhs|]; simpl; [|done].
  destruct (split "<=>" r.2 !! 1) as [rhs|]; simpl; [|done].
  intros [= <-]. by exists lhs, rhs.
Qed.

Lemma all_names_inv reactions names name :
  all_names reactions = Ok names →
  name ∈ names ↔ ∃ r ns, r ∈ reactions ∧ reaction_names r = Ok ns ∧ name ∈ ns.
Proof.
  unfold all_names.
  destruct (res_mapM reaction_names reactions) as [ls|] eqn:E; simpl; [|done].
  intros [= <-]. rewrite elem_of_concat.
  apply res_mapM_lookup in E as [Hlen E]. split.
  - intros (l & [n Hn]%list_elem_of_lookup_1 & Hx).
    destruct (E n l Hn) as (r & Hr & Hrn).
    exists r, l. split_and!; [|done..]. by eapply list_elem_of_lookup_2.
  - intros (r & ns & [n Hn]%list_elem_of_lookup_1 & Hrn & Hx).
    destruct (lookup_lt_is_Some_2 ls n) as [l Hl].
    { rewrite Hlen. by eapply lookup_lt_Some. }
    destruct (E n l Hl) as (r' & Hr' & Hrn').
    rewrite Hn in Hr'. injection Hr' as <-.
    rewrite Hrn in Hrn'. injection Hrn' as <-.
    exists ns. split; [by eapply list_elem_of_lookup_2|done].
Qed.

(** A description with a separator yields names. *)
Lemma reaction_names_ok r :
  occurs "<=>" r.2 → ∃ names, reaction_names r = Ok names ∧ names ≠ [].
Proof.
  intros [[b a] Hf]%occurs_find.
  unfold reaction_names, PyList.getitem. rewrite split_unfold, Hf by done.
  cbn [lookup list_lookup]. pose proof (split_nonempty "<=>" a) as Hne.
  destruct (split "<=>" a) as [|rhs l]; [done|].
  simpl. eexists. split; [done|].
  pose proof (split_nonempty " + " b). by destruct (split " + " b).
Qed.
End term_facts.

(** X5. A description that parses is put together again from its terms:
    the substrate terms joined by [" + "], the separator, the product
    terms joined by [" + "]. Each side has at least one term, and no term,
    stripped or not, holds [" + "] or [<=>]. *)
Theorem split_description_round_trip (d : string)
    (substrates products : list string) :
  split_description d = Ok (substrates, products) →
  d = PyStr.join " + " substrates +:+ "<=>" +:+ PyStr.join " + " products
  ∧ substrates ≠ [] ∧ products ≠ []
  ∧ Forall (λ t, ¬ PyStr.occurs " + " t ∧ ¬ PyStr.occurs "<=>" t
                 ∧ ¬ PyStr.occurs " + " (PyStr.strip t)
                 ∧ ¬ PyStr.occurs "<=>" (PyStr.strip t))
      (substrates ++ products).
Proof.
  unfold split_description, PyList.unpack2.
  destruct (PyStr.split "<=>" d) as [|lhs [|rhs [|? ?]]] eqn:E; try done.
  simpl. intros [= <- <-].
  apply PyStrFacts.split_arrow_two in E as (-> & Hl & Hr).
  rewrite !PyStrFacts.join_split by done. split_and!; [done|..].
  - apply PyStrFacts.split_nonempty.
  - apply PyStrFacts.split_nonempty.
  - apply Forall_app. split; apply list.Forall_forall; intros t Ht.
    + by apply (side_terms_clean lhs).
    + by apply (side_terms_clean rhs).
Qed.

Lemma split_description_round_trip_witness :
  split_description "C00031+C00002 <=>  C00003 + C00003 "
    = Ok (["C00031+C00002 "], ["  C00003"; "C00003 "])
  ∧ "C00031+C00002 <=>  C00003 + C00003 "
    = PyStr.join " + " ["C00031+C00002 "] +:+ "<=>"
      +:+ PyStr.join " + " ["  C00003"; "C00003 "].
Proof.
  split; [reflexivity|].
  exact (proj1 (split_description_round_trip
                  "C00031+C00002 <=>  C00003 + C00003 "
                  ["C00031+C00002 "] ["  C00003"; "C00003 "] eq_refl)).
Defined.

(** X6. Every name of the species list is a stripped term: it has no
    whitespace at either end and holds neither [" + "] nor [<=>]. The list
    is empty for no reactions and for no other input. *)
Theorem species_names_clean (o : SetOrder) (reactions : list reaction)
    (species : list string) :
  species_of o reactions = Ok species →
  Forall (λ name, PyStr.trimmed name
                  ∧ ¬ PyStr.occurs " + " name ∧ ¬ PyStr.occurs "<=>" name)
    species
  ∧ (species = [] ↔ reactions = []).
Proof.
  unfold species_of.
  destruct (all_names reactions) as [names|] eqn:Hn; simpl; [|done].
  intros [= <-]. split.
  - apply list.Forall_forall. intros name Hin%set_to_list_elem.
    apply (all_names_inv _ _ name Hn) in Hin as (r & ns & Hr & Hrn & Hin).
    apply reaction_names_inv in Hrn as (lhs & rhs & Hl & Hrhs & ->).
    pose proof (split_pieces_clean "<=>" r.2 ltac:(done)) as Hc.
    rewrite list.Forall_forall in Hc.
    assert (Hlc : ¬ PyStr.occurs "<=>" lhs)
      by (apply Hc; by eapply list_elem_of_lookup_2).
    assert (Hrc : ¬ PyStr.occurs "<=>" rhs)
      by (apply Hc; by eapply list_elem_of_lookup_2).
    apply elem_of_app in Hin as [Hin|Hin];
      apply list_elem_of_fmap in Hin as (t & -> & Ht);
      (split; [apply PyStrFacts.strip_trimmed|]).
    + by destruct (side_terms_clean lhs t Hlc Ht) as (_ & _ & ? & ?).
    + by destruct (side_terms_clean rhs t Hrc Ht) as (_ & _ & ? & ?).
  - split.
    + intros Hnil. destruct reactions as [|r rs]; [done|]. exfalso.
      assert (Hocc : PyStr.occurs "<=>" r.2).
      { destruct (decide (PyStr.occurs "<=>" r.2)) as [|Hno]; [done|].
        pose proof (species_of_no_separator o (r :: rs) r) as Hraise.
        unfold species_of in Hraise. rewrite Hn in Hraise.
        discriminate Hraise; [by left|done]. }
      destruct (reaction_names_ok r Hocc) as (ns & Hns & Hne).
      destruct ns as [|name ns]; [done|].
      assert (name ∈ set_to_list o names) as Hin.
      { apply set_to_list_elem, (all_names_inv _ _ name Hn).
        exists r, (name :: ns). split_and!; [by left|done|by left]. }
      rewrite Hnil in Hin. by apply elem_of_nil in Hin.
    + intros ->. injection Hn as <-.
      destruct (set_to_list o []) as [|x l] eqn:E; [done|].
      assert (x ∈ set_to_list o []) as Hx by (rewrite E; by left).
      apply set_to_list_elem in Hx. by apply elem_of_nil in Hx.
Qed.

Lemma species_names_clean_witness :
  species_of table_order [("R00001", "C00031 + C00002 <=> C00003 <=> x")]
    = Ok ["C00031"; "C00003"; "C00002"]
  ∧ Forall (λ name, PyStr.trimmed name
                    ∧ ¬ PyStr.occurs " + " name ∧ ¬ PyStr.occurs "<=>" name)
      ["C00031"; "C00003"; "C00002"].
Proof.
  split; [reflexivity|].
  exact (proj1 (species_names_clean table_order
                  [("R00001", "C00031 + C00002 <=> C00003 <=> x")]
                  ["C00031"; "C00003"; "C00002"] eq_refl)).
Defined.

(** ** When the simulation starts *)

Lemma all_names_ok reactions :
  Forall (λ r : reaction, PyStr.occurs "<=>" r.2) reactions →
  is_ok (all_names reactions).
Proof.
  intros Hall. unfold all_names.
  assert (∃ ls, res_mapM reaction_names reactions = Ok ls) as [ls ->].
  { induction Hall as [|r rs Hr _ [ls IH]]; [by exists []|].
    destruct (reaction_names_ok r Hr) as (ns & Hns & _).
    exists (ns :: ls). simpl. by rewrite Hns, IH. }
  by eexists.
Qed.

(** X7. The simulation gets as far as the integrator exactly when every
    description holds a separator. Otherwise it ends in [IndexError]
    whatever the integrator is, and the caller's list of initial
    concentrations is as it was. *)
Theorem simulation_starts_iff (o : SetOrder) (uniform : nat → Qc)
    (solve_ivp : ivp → res solution) (reactions : list reaction) (ic : nat)
    (time_span : Qc * Qc) (h : heap) :
  (is_ok (solve_ivp_call o uniform reactions ic time_span h).1
   ↔ Forall (λ r : reaction, PyStr.occurs "<=>" r.2) reactions)
  ∧ (¬ Forall (λ r : reaction, PyStr.occurs "<=>" r.2) reactions →
     simulate_reaction_dynamics o uniform solve_ivp reactions ic time_span h
     = (Raise IndexError, h)).
Proof.
  assert (Hraise : ¬ Forall (λ r : reaction, PyStr.occurs "<=>" r.2) reactions →
                   species_of o reactions = Raise IndexError).
  { intros Hn. apply not_Forall_Exists in Hn; [|apply _].
    apply Exists_exists in Hn as (r & Hr & Hno).
    by apply (species_of_no_separator o reactions r). }
  split.
  - split.
    + intros [res Hres].
      destruct (decide (Forall (λ r : reaction, PyStr.occurs "<=>" r.2)
                          reactions)) as [|Hn]; [done|].
      unfold solve_ivp_call in Hres. by rewrite (Hraise Hn) in Hres.
    + intros Hall. destruct (all_names_ok reactions Hall) as [names Hn].
      unfold solve_ivp_call, species_of. rewrite Hn. simpl. by eexists.
  - intros Hn. unfold simulate_reaction_dynamics, solve_ivp_call.
    by rewrite (Hraise Hn).
Qed.

Lemma simulation_starts_iff_witness :
  ¬ Forall (λ r : reaction, PyStr.occurs "<=>" r.2)
      [("R00001", "C00031 <=> C00003"); ("R00002", "C00031 => C00003")]
  ∧ simulate_reaction_dynamics table_order (λ _, 2%Qc) (λ _, Raise ValueError)
      [("R00001", "C00031 <=> C00003"); ("R00002", "C00031 => C00003")]
      0 (0%Qc, 1%Qc) {[0 := [1%Qc]]}
    = (Raise IndexError, {[0 := [1%Qc]]}).
Proof.
  assert (H : ¬ Forall (λ r : reaction, PyStr.occurs "<=>" r.2)
                [("R00001", "C00031 <=> C00003"); ("R00002", "C00031 => C00003")]).
  { intros H. apply Forall_cons in H as [_ H]. apply Forall_cons in H as [H _].
    by apply PyStrFacts.find_None in H. }
  split; [exact H|].
  exact (proj2 (simulation_starts_iff table_order (λ _, 2%Qc)
                  (λ _, Raise ValueError) _ 0 (0%Qc, 1%Qc) {[0 := [1%Qc]]}) H).
Defined.

(** ** The table of constants *)

Lemma equilibrium_constants_fold uniform reactions (acc : gmap string Qc * nat) :
  let m' := (fold_left (λ (acc : gmap string Qc * nat) (r : reaction),
               (<[r.1 := uniform acc.2]> acc.1, S acc.2)) reactions acc).1 in
  (∀ id, id ∉ reactions.*1 → m' !! id = acc.1 !! id)
  ∧ (∀ i r,
       reactions !! i = Some r →
       (∀ j r', i < j → reactions !! j = Some r' → r'.1 ≠ r.1) →
       m' !! r.1 = Some (uniform (acc.2 + i))).
Proof.
  revert acc. induction reactions as [|r0 rs IH]; intros acc; cbn zeta.
  - split; [done|]. intros i r. by rewrite lookup_nil.
  - cbn [fold_left].
    destruct (IH (<[r0.1 := uniform acc.2]> acc.1, S acc.2)) as [Hout Hin].
    cbn [fst snd] in Hout, Hin. split.
    + intros id Hid. rewrite fmap_cons in Hid. rewrite Hout.
      * apply lookup_insert_ne. intros Heq. apply Hid. rewrite <- Heq. by left.
      * intros H. apply Hid. by right.
    + intros [|i] r Hr Hlast.
      * injection Hr as <-. rewrite Hout.
        { by rewrite lookup_insert_eq, Nat.add_0_r. }
        intros (r' & Heq & [j Hj]%list_elem_of_lookup_1)%list_elem_of_fmap.
        apply (Hlast (S j) r'); [lia|done|done].
      * rewrite (Hin i r Hr).
        { f_equal. f_equal. lia. }
        intros j r' Hj Hr'. apply (Hlast (S j) r'); [lia|done].
Qed.

(** X8. Every reaction finds its constant in the table: the draw made for
    the last reaction of the input that carries its id, so the draw
    number [i] for reaction [i] when the ids differ. An id that no reaction
    carries is not in the table. *)
Theorem equilibrium_constants_lookup (uniform : nat → Qc)
    (reactions : list reaction) :
  (∀ i r,
     reactions !! i = Some r →
     (∀ j r', i < j → reactions !! j = Some r' → r'.1 ≠ r.1) →
     equilibrium_constants uniform reactions !! r.1 = Some (uniform i))
  ∧ (NoDup reactions.*1 →
     ∀ i r, reactions !! i = Some r →
            equilibrium_constants uniform reactions !! r.1 = Some (uniform i))
  ∧ (∀ id, equilibrium_constants uniform reactions !! id = None
           ↔ id ∉ reactions.*1).
Proof.
  destruct (equilibrium_constants_fold uniform reactions (∅, 0)) as [Hout Hin].
  cbn [fst snd] in Hout, Hin.
  assert (Hlast : ∀ i r,
     reactions !! i = Some r →
     (∀ j r', i < j → reactions !! j = Some r' → r'.1 ≠ r.1) →
     equilibrium_constants uniform reactions !! r.1 = Some (uniform i)).
  { intros i r Hr Hl. apply (Hin i r Hr Hl). }
  split_and!; [exact Hlast| |].
  - intros Hnd i r Hr. apply Hlast; [done|].
    intros j r' Hlt Hr' Heq.
    assert (i = j); [|lia].
    apply (NoDup_lookup _ _ _ r.1 Hnd).
    + rewrite list_lookup_fmap. unfold reaction in *. by rewrite Hr.
    + rewrite list_lookup_fmap. unfold reaction in *. rewrite Hr'. simpl.
      by rewrite Heq.
  - intros id. split.
    + intros Hnone (r & -> & Hr)%list_elem_of_fmap.
      destruct (equilibrium_constants_dom uniform reactions r Hr) as [k Hk].
      congruence.
    + intros Hid. unfold equilibrium_constants. by rewrite Hout.
Qed.

Lemma equilibrium_constants_lookup_witness :
  NoDup [("R00001", "A <=> B"); ("R00002", "B <=> C")].*1
  ∧ equilibrium_constants (λ n, Qc_of_Z (Z.of_nat n))
      [("R00001", "A <=> B"); ("R00002", "B <=> C")] !! "R00002"
    = Some (Qc_of_Z 1).
Proof.
  assert (H : NoDup [("R00001", "A <=> B"); ("R00002", "B <=> C")].*1).
  { apply (bool_decide_unpack _). by vm_compute. }
  split; [exact H|].
  exact (proj1 (proj2 (equilibrium_constants_lookup
                         (λ n, Qc_of_Z (Z.of_nat n))
                         [("R00001", "A <=> B"); ("R00002", "B <=> C")]))
           H 1 ("R00002", "B <=> C") eq_refl).
Defined.

(** ** More on the derivative *)

Section derivative_facts.
Implicit Types (y dydt : list Qc) (species : list string).

Lemma net_rate_filter species eqc y reactions i :
  net_rate species eqc y
    (filter (λ r : reaction, is_ok (split_description r.2)) reactions) i
  = net_rate species eqc y reactions i.
Proof.
  induction reactions as [|[rid d] rs IH]; [done|].
  rewrite filter_cons. cbn [snd].
  destruct (decide (is_ok (split_description d))) as [Hok|Hno].
  - by rewrite !net_rate_cons, IH.
  - rewrite IH, net_rate_cons.
    destruct (split_description d) as [p|e] eqn:Hd; [destruct Hno; by exists p|].
    by rewrite (reaction_fluxes_malformed _ _ _ _ _ _ Hd).
Qed.

Lemma kinetics_diagnostics_filter reactions :
  kinetics_diagnostics reactions
  = map (λ r : reaction, "Skipping malformed reaction: " +:+ r.2)
      (filter (λ r : reaction, ¬ is_ok (split_description r.2)) reactions).
Proof.
  induction reactions as [|[rid d] rs IH]; [done|].
  rewrite kinetics_diagnostics_cons, filter_cons. cbn [snd].
  destruct (split_description d) as [p|e] eqn:Hd.
  - rewrite decide_False; [apply IH|]. intros H. apply H. by exists p.
  - rewrite decide_True; [|by intros [p ?]]. cbn [map snd]. by rewrite <- IH.
Qed.

Lemma kinetics_diagnostics_parsed reactions :
  kinetics_diagnostics
    (filter (λ r : reaction, is_ok (split_description r.2)) reactions) = [].
Proof.
  induction reactions as [|[rid d] rs IH]; [done|].
  rewrite filter_cons. cbn [snd].
  destruct (decide (is_ok (split_description d))) as [[p Hp]|Hno]; [|done].
  by rewrite kinetics_diagnostics_cons, Hp.
Qed.
End derivative_facts.

(** X9. A reaction that does not parse never changes the derivative: the
    result is the one for the reactions that parse. At every evaluation the
    function prints one line for each reaction that does not parse, in
    input order, and nothing else. *)
Theorem kinetics_ignores_malformed (species : list string)
    (uniform : nat → Qc) (reactions : list reaction) (t : Qc) (y : list Qc) :
  (reaction_kinetics species (equilibrium_constants uniform reactions)
     reactions t y).1
  = (reaction_kinetics species (equilibrium_constants uniform reactions)
       (filter (λ r : reaction, is_ok (split_description r.2)) reactions)
       t y).1
  ∧ (reaction_kinetics species (equilibrium_constants uniform reactions)
       reactions t y).2
    = map (λ r : reaction, "Skipping malformed reaction: " +:+ r.2)
        (filter (λ r : reaction, ¬ is_ok (split_description r.2)) reactions)
  ∧ (reaction_kinetics species (equilibrium_constants uniform reactions)
       (filter (λ r : reaction, is_ok (split_description r.2)) reactions)
       t y).2 = [].
Proof.
  set (eqc := equilibrium_constants uniform reactions).
  destruct (reaction_kinetics_spec species eqc reactions t y)
    as (d1 & H1 & Hl1 & Hi1).
  { intros r. apply equilibrium_constants_dom. }
  destruct (reaction_kinetics_spec species eqc
              (filter (λ r : reaction, is_ok (split_description r.2)) reactions)
              t y) as (d2 & H2 & Hl2 & Hi2).
  { intros r [_ Hr]%list_elem_of_filter.
    by apply equilibrium_constants_dom. }
  rewrite H1, H2. cbn [fst snd]. split_and!.
  - f_equal. apply list_eq. intros i.
    destruct (decide (i < length y)) as [Hlt|Hge].
    + rewrite (list_lookup_lookup_total_lt d1), (list_lookup_lookup_total_lt d2)
        by lia.
      by rewrite Hi1, Hi2, net_rate_filter.
    + by rewrite !lookup_ge_None_2 by lia.
  - apply kinetics_diagnostics_filter.
  - apply kinetics_diagnostics_parsed.
Qed.

(** ** The empty state *)

Section zero_state.
Implicit Types (y dydt : list Qc) (species : list string).

Lemma prod_zeros (l : list Qc) :
  l ≠ [] → Forall (λ x, x = 0%Qc) l → prod l = 0%Qc.
Proof.
  intros Hne Hall. destruct Hall as [|x l -> _]; [done|].
  rewrite prod_cons. ring.
Qed.

Lemma lookup_total_zeros n i : replicate n 0%Qc !!! i = 0%Qc.
Proof.
  destruct (decide (i < n)) as [Hlt|Hge].
  - by apply lookup_total_replicate_2.
  - rewrite list_lookup_total_alt.
    by rewrite (proj1 (lookup_replicate_None n 0%Qc i)) by lia.
Qed.

Lemma term_indices_nonempty species terms si :
  terms ≠ [] →
  Forall (λ s, PyStr.strip s ∈ species) terms →
  term_indices species terms = Ok si → si ≠ [].
Proof.
  intros Hne Hall. destruct Hall as [|s terms Hs _]; [done|].
  unfold term_indices. rewrite filter_cons_True by done. cbn [res_mapM].
  destruct (PyList.index (PyStr.strip s) species); cbn [res_bind]; [|done].
  destruct (res_mapM _ _); cbn [res_bind]; [|done].
  by intros [= <-].
Qed.

Lemma split_description_nonempty d subs prods :
  split_description d = Ok (subs, prods) → subs ≠ [] ∧ prods ≠ [].
Proof.
  unfold split_description, PyList.unpack2.
  destruct (PyStr.split "<=>" d) as [|lhs [|rhs [|? ?]]]; try done.
  simpl. intros [= <- <-]. split; apply PyStrFacts.split_nonempty.
Qed.

(** The terms of a reaction that parses are names of the species list. *)
Lemma parsed_terms_registered o reactions species r subs prods :
  species_of o reactions = Ok species →
  r ∈ reactions →
  split_description r.2 = Ok (subs, prods) →
  Forall (λ s, PyStr.strip s ∈ species) subs
  ∧ Forall (λ s, PyStr.strip s ∈ species) prods.
Proof.
  unfold species_of.
  destruct (all_names reactions) as [names|] eqn:Hn; simpl; [|done].
  intros [= <-] Hr Hd.
  unfold split_description, PyList.unpack2 in Hd.
  destruct (PyStr.split "<=>" r.2) as [|lhs [|rhs [|? ?]]] eqn:E; try done.
  simpl in Hd. injection Hd as <- <-.
  assert (Hrn : reaction_names r
                = Ok (map PyStr.strip (PyStr.split " + " lhs)
                      ++ map PyStr.strip (PyStr.split " + " rhs))).
  { unfold reaction_names, PyList.getitem. by rewrite E. }
  assert (Hin : ∀ name,
            name ∈ map PyStr.strip (PyStr.split " + " lhs)
                   ++ map PyStr.strip (PyStr.split " + " rhs) →
            name ∈ set_to_list o names).
  { intros name Hname. apply set_to_list_elem, (all_names_inv _ _ name Hn).
    by eexists r, _. }
  split; apply list.Forall_forall; intros s Hs; apply Hin, elem_of_app;
    [left|right]; apply list_elem_of_fmap; by exists s.
Qed.

Lemma net_rate_zero species eqc y reactions i :
  (∀ r f, r ∈ reactions → reaction_fluxes species eqc y r = Ok f →
          (forward_flux f - reverse_flux f)%Qc = 0%Qc) →
  net_rate species eqc y reactions i = 0%Qc.
Proof.
  induction reactions as [|r rs IH]; intros Hz; [done|].
  rewrite net_rate_cons.
  destruct (reaction_fluxes species eqc y r) as [f|e] eqn:Hf.
  - unfold contribution. rewrite (Hz r f) by (done || by left).
    rewrite IH; [ring|]. intros r' f' Hr'. apply Hz. by right.
  - apply IH. intros r' f' Hr'. apply Hz. by right.
Qed.
End zero_state.

(** X11. With every concentration at zero nothing moves: for the species
    list of the reactions themselves and the state of zeros, the derivative
    is the vector of zeros, whatever the constants and the order of the
    species are. *)
Theorem zero_state_stationary (o : SetOrder) (uniform : nat → Qc)
    (reactions : list reaction) (species : list string) (t : Qc) :
  species_of o reactions = Ok species →
  (reaction_kinetics species (equilibrium_constants uniform reactions)
     reactions t (replicate (length species) 0%Qc)).1
  = Ok (replicate (length species) 0%Qc).
Proof.
  intros Hsp.
  set (eqc := equilibrium_constants uniform reactions).
  set (y := replicate (length species) 0%Qc).
  assert (Hlen : length y = length species) by apply length_replicate.
  destruct (reaction_kinetics_spec species eqc reactions t y)
    as (dydt & Hd & Hl & Hi).
  { intros r. apply equilibrium_constants_dom. }
  rewrite Hd. cbn [fst]. f_equal.
  assert (Hzero : ∀ i, net_rate species eqc y reactions i = 0%Qc).
  { intros i. apply net_rate_zero. intros [rid d] f Hr Hf.
    destruct (split_description d) as [[subs prods]|e] eqn:Hsd;
      [|by rewrite (reaction_fluxes_malformed _ _ _ _ _ _ Hsd) in Hf].
    destruct (equilibrium_constants_dom uniform reactions _ Hr) as [k Hk].
    destruct (reaction_fluxes_ok species eqc y rid d subs prods k Hsd Hk)
      as (si & pi & Hsi & Hpi & Hsilt & Hpilt & Hf').
    rewrite Hf' in Hf. injection Hf as <-. cbn [forward_flux reverse_flux].
    destruct (parsed_terms_registered o reactions species (rid, d) subs prods
                Hsp Hr Hsd) as [Hsubs Hprods].
    destruct (split_description_nonempty d subs prods Hsd) as [Hsne Hpne].
    rewrite Hlen, !filter_in_range by done.
    rewrite (prod_zeros (map _ si)), (prod_zeros (map _ pi)); [ring|..].
    - pose proof (term_indices_nonempty species prods pi Hpne Hprods Hpi).
      by destruct pi.
    - apply Forall_fmap, list.Forall_forall. intros i' _. apply lookup_total_zeros.
    - pose proof (term_indices_nonempty species subs si Hsne Hsubs Hsi).
      by destruct si.
    - apply Forall_fmap, list.Forall_forall. intros i' _. apply lookup_total_zeros. }
  apply list_eq. intros i.
  destruct (decide (i < length species)) as [Hlt|Hge].
  - rewrite (list_lookup_lookup_total_lt dydt) by lia.
    rewrite Hi, Hzero by lia. unfold y. by rewrite lookup_replicate_2.
  - rewrite lookup_ge_None_2 by lia.
    symmetry. unfold y. apply lookup_replicate_None. lia.
Qed.

Lemma zero_state_stationary_witness :
  species_of table_order [("R00001", "C00031 + C00002 <=> C00003")]
    = Ok ["C00031"; "C00003"; "C00002"]
  ∧ (reaction_kinetics ["C00031"; "C00003"; "C00002"]
       (equilibrium_constants (λ _, 2%Qc)
          [("R00001", "C00031 + C00002 <=> C00003")])
       [("R00001", "C00031 + C00002 <=> C00003")] 0%Qc
       (replicate (length ["C00031"; "C00003"; "C00002"]) 0%Qc)).1
    = Ok (replicate (length ["C00031"; "C00003"; "C00002"]) 0%Qc).
Proof.
  split; [reflexivity|].
  exact (zero_state_stationary table_order (λ _, 2%Qc)
           [("R00001", "C00031 + C00002 <=> C00003")]
           ["C00031"; "C00003"; "C00002"] 0%Qc eq_refl).
Defined.

(** ** The script *)

Section script_facts.

Lemma filter_all {A} (P : A → Prop) `{∀ x, Decision (P x)} (l : list A) :
  (∀ x, x ∈ l → P x) → filter P l = l.
Proof.
  induction l as [|x l IH]; intros Hall; [done|].
  rewrite filter_cons_True by (apply Hall; by left).
  rewrite IH; [done|]. intros y Hy. apply Hall. by right.
Qed.

Lemma filter_none {A} (P : A → Prop) `{∀ x, Decision (P x)} (l : list A) :
  (∀ x, x ∈ l → ¬ P x) → filter P l = [].
Proof.
  induction l as [|x l IH]; intros Hall; [done|].
  rewrite filter_cons_False by (apply Hall; by left).
  apply IH. intros y Hy. apply Hall. by right.
Qed.

(** The list that the script builds has one entry per reaction. *)
Lemma length_main_initial_concentrations c reactions :
  reactions ≠ [] →
  length (main_initial_concentrations c reactions) = length reactions.
Proof.
  intros Hne. unfold main_initial_concentrations.
  cbn [length]. rewrite length_replicate. destruct reactions; [done|].
  simpl. lia.
Qed.

Lemma species_nonempty o reactions species :
  reactions ≠ [] → species_of o reactions = Ok species → species ≠ [].
Proof.
  intros Hne Hsp Hnil. destruct reactions as [|r rs]; [done|].
  assert (Hocc : PyStr.occurs "<=>" r.2).
  { destruct (decide (PyStr.occurs "<=>" r.2)) as [|Hno]; [done|].
    rewrite (species_of_no_separator o (r :: rs) r) in Hsp; [done| |done].
    by left. }
  destruct (reaction_names_ok r Hocc) as (ns & Hns & Hnsne).
  destruct ns as [|name ns]; [done|].
  unfold species_of in Hsp.
  destruct (all_names (r :: rs)) as [names|] eqn:Hn; [|done].
  simpl in Hsp. injection Hsp as <-.
  assert (name ∈ set_to_list o names) as Hin.
  { apply set_to_list_elem, (all_names_inv _ _ name Hn).
    exists r, (name :: ns). split_and!; [by left|done|by left]. }
  rewrite Hnil in Hin. by apply elem_of_nil in Hin.
Qed.

(** A run of the loop of the script, once a description without a
    separator is among the reactions. *)
Lemma main_step_raises E reactions events draws r c :
  r ∈ reactions → ¬ PyStr.occurs "<=>" r.2 →
  main_step E reactions (events, draws, None) c
  = (events, draws + length reactions, Some IndexError).
Proof.
  intros Hr Hno. cbn [main_step].
  unfold simulate_reaction_dynamics, solve_ivp_call.
  by rewrite (species_of_no_separator _ reactions r Hr Hno).
Qed.
End script_facts.

(** X12. In the script the integrator gets, for each chosen initial
    concentration, a vector with one entry per species: the chosen value
    first, then 0.1 up to the number of reactions, then zeros. Which
    species gets which entry follows from the order of the species list
    alone. *)
Theorem main_integrator_vector (o : SetOrder) (uniform : nat → Qc)
    (reactions : list reaction) (c : Qc) (time_span : Qc * Qc)
    (species : list string) :
  reactions ≠ [] →
  species_of o reactions = Ok species →
  ∃ call h',
    solve_ivp_call o uniform reactions 0 time_span
      {[0 := main_initial_concentrations c reactions]}
    = (Ok (call, species), h')
    ∧ length (ivp_y0 call) = length species
    ∧ ivp_y0 call !! 0 = Some c
    ∧ (∀ i, 0 < i → i < length reactions → i < length species →
            ivp_y0 call !! i = Some (Q2Qc (1 # 10)))
    ∧ (∀ i, length reactions ≤ i → i < length species →
            ivp_y0 call !! i = Some 0%Qc).
Proof.
  intros Hne Hsp.
  pose proof (length_main_initial_concentrations c reactions Hne) as Hlen.
  pose proof (species_nonempty o reactions species Hne Hsp) as Hspne.
  assert (0 < length species) as Hpos by (destruct species; [done|simpl; lia]).
  assert (0 < length reactions) as Hrpos by (destruct reactions; [done|simpl; lia]).
  destruct (solve_ivp_call_ok o uniform reactions 0 time_span
              {[0 := main_initial_concentrations c reactions]}
              (main_initial_concentrations c reactions) species)
    as (call & Hcall & Hy0); [apply lookup_singleton_eq|done|].
  eexists call, _. split; [exact Hcall|]. rewrite Hy0, Hlen.
  split_and!.
  - rewrite length_take, length_app, length_replicate, Hlen. lia.
  - by rewrite lookup_take_lt, lookup_app_l by lia.
  - intros i Hi Hir His.
    rewrite lookup_take_lt, lookup_app_l by lia.
    unfold main_initial_concentrations. destruct i as [|i]; [lia|].
    cbn [lookup list_lookup]. apply lookup_replicate_2. lia.
  - intros i Hir His.
    rewrite lookup_take_lt, lookup_app_r by lia.
    apply lookup_replicate_2. lia.
Qed.

Lemma main_integrator_vector_witness :
  [("R00001", "C00031 + C00002 <=> C00003")] ≠ []
  ∧ species_of table_order [("R00001", "C00031 + C00002 <=> C00003")]
    = Ok ["C00031"; "C00003"; "C00002"]
  ∧ ∃ call h',
      solve_ivp_call table_order (λ _, 2%Qc)
        [("R00001", "C00031 + C00002 <=> C00003")] 0 (0%Qc, Q2Qc 10%Q)
        {[0 := main_initial_concentrations (Q2Qc (1 # 2))
                 [("R00001", "C00031 + C00002 <=> C00003")]]}
      = (Ok (call, ["C00031"; "C00003"; "C00002"]), h')
      ∧ ivp_y0 call !! 0 = Some (Q2Qc (1 # 2))
      ∧ ivp_y0 call !! 2 = Some 0%Qc.
Proof.
  assert (Hne : [("R00001", "C00031 + C00002 <=> C00003")] ≠ @nil reaction)
    by done.
  split; [exact Hne|]. split; [reflexivity|].
  destruct (main_integrator_vector table_order (λ _, 2%Qc)
              [("R00001", "C00031 + C00002 <=> C00003")] (Q2Qc (1 # 2))
              (0%Qc, Q2Qc 10%Q) ["C00031"; "C00003"; "C00002"] Hne eq_refl)
    as (call & h' & Hcall & _ & H0 & _ & Hz).
  exists call, h'. split_and!; [exact Hcall|exact H0|].
  apply Hz; simpl; lia.
Defined.

(** X13. When no line of the answer has a tab (an empty answer among
    them) the script prints the report of the fetch, with every line of the
    answer listed as skipped, and ends: no graph, no simulation, no figure,
    no exception. For the empty answer the report is the heading, "No
    valid reactions found." and "No malformed lines encountered.". *)
Theorem main_without_reactions (E : externals) :
  let molecule_id :=
    ext_input E
      "Enter the KEGG ID of the molecule (e.g., C00031 for Glucose): " in
  let results := ext_kegg_find E "reaction" molecule_id in
  (∀ line, line ∈ result_lines results → ¬ PyStr.occurs tab line) →
  main E
  = (map Print
       (fetch_report (ext_tabulate E) molecule_id [] (result_lines results)),
     None)
  ∧ (results = EmptyString →
     main E
     = ([Print (str_repeat "=" 50);
         Print ("Reactions involving " +:+ molecule_id +:+ ": 0 found");
         Print (str_repeat "=" 50);
         Print "No valid reactions found.";
         Print (newline +:+ "No malformed lines encountered.")],
        None)).
Proof.
  intros molecule_id results Hno.
  assert (Hmain : main E
    = (map Print
         (fetch_report (ext_tabulate E) molecule_id [] (result_lines results)),
       None)).
  { unfold main. fold molecule_id. fold results.
    destruct (fetch_ok (ext_tabulate E) results molecule_id)
      as (parsed & skipped & -> & Hp & Hs & _).
    rewrite (filter_none _ _ (λ l Hl H, Hno l Hl H)) in Hp.
    rewrite (filter_all _ _ Hno) in Hs. subst skipped.
    destruct parsed; [done|discriminate Hp]. }
  split; [exact Hmain|].
  intros Hres. rewrite Hmain, Hres. reflexivity.
Qed.

Lemma main_without_reactions_witness :
  let E := {| ext_input := λ _, "C99999";
              ext_kegg_find := λ _ _, newline;
              ext_tabulate := λ _, EmptyString;
              ext_solve_ivp := λ _, Raise ValueError;
              ext_set_order := insertion_order;
              ext_uniform := λ _, 1%Qc |} in
  (∀ line, line ∈ result_lines newline → ¬ PyStr.occurs tab line)
  ∧ main E
    = (map Print (fetch_report (λ _, EmptyString) "C99999" [] [""; ""]), None).
Proof.
  intros E.
  assert (H : ∀ line, line ∈ result_lines newline → ¬ PyStr.occurs tab line).
  { intros line Hl. apply PyStrFacts.find_None.
    change (result_lines newline) with [""; ""] in Hl.
    apply elem_of_cons in Hl as [->|Hl]; [done|].
    by apply list_elem_of_singleton in Hl as ->. }
  split; [exact H|]. exact (proj1 (main_without_reactions E H)).
Defined.

(** X14. When a fetched description holds no separator the script ends in
    [IndexError] at the first simulation: it has printed the report of the
    fetch and the lines of the graph builder, the complaint about that
    description among them, and it shows no figure and no summary. *)
Theorem main_stops_without_separator (E : externals)
    (parsed : list reaction) (r : reaction) :
  let molecule_id :=
    ext_input E
      "Enter the KEGG ID of the molecule (e.g., C00031 for Glucose): " in
  (fetch_reactions_for_molecule (ext_tabulate E)
     (ext_kegg_find E "reaction" molecule_id) molecule_id).1 = Ok parsed →
  r ∈ parsed →
  ¬ PyStr.occurs "<=>" r.2 →
  ∃ out,
    main E = (map Print out, Some IndexError)
    ∧ ("Skipping malformed reaction description: " +:+ r.2) ∈ out.
Proof.
  intros molecule_id Hfetch Hr Hno.
  unfold main. fold molecule_id.
  destruct (fetch_ok (ext_tabulate E)
              (ext_kegg_find E "reaction" molecule_id) molecule_id)
    as (parsed' & skipped & Hf & _).
  rewrite Hf in Hfetch. cbn [fst] in Hfetch. injection Hfetch as ->.
  rewrite Hf.
  destruct (build_reaction_network_ok parsed) as [G HG].
  destruct parsed as [|r0 rs] eqn:Hparsed; [by apply elem_of_nil in Hr|].
  rewrite <- Hparsed in *. rewrite HG.
  unfold initial_concentration_range. cbn [fold_left].
  rewrite (main_step_raises E parsed _ _ r) by done.
  cbn [main_step].
  eexists. split; [reflexivity|].
  apply elem_of_app. right. rewrite network_diagnostics_filter.
  apply list_elem_of_fmap. exists r. split; [done|].
  apply list_elem_of_filter. split; [|done].
  intros Hok. apply split_description_ok_iff in Hok as (lhs & rhs & Hd & _).
  apply Hno. rewrite Hd. by exists lhs, rhs.
Qed.

Lemma main_stops_without_separator_witness :
  let E := {| ext_input := λ _, "C00031";
              ext_kegg_find := λ _ _,
                "R00001" +:+ tab +:+ "C00031 <=> C00003" +:+ newline
                +:+ "R00002" +:+ tab +:+ "malformed_line";
              ext_tabulate := λ _, EmptyString;
              ext_solve_ivp := λ _, Raise ValueError;
              ext_set_order := insertion_order;
              ext_uniform := λ _, 1%Qc |} in
  (fetch_reactions_for_molecule (ext_tabulate E)
     (ext_kegg_find E "reaction" "C00031") "C00031").1
  = Ok [("R00001", "C00031 <=> C00003"); ("R00002", "malformed_line")]
  ∧ ∃ out,
      main E = (map Print out, Some IndexError)
      ∧ "Skipping malformed reaction description: malformed_line" ∈ out.
Proof.
  intros E. split; [reflexivity|].
  apply (main_stops_without_separator E
           [("R00001", "C00031 <=> C00003"); ("R00002", "malformed_line")]
           ("R00002", "malformed_line")).
  - reflexivity.
  - right. by left.
  - by apply PyStrFacts.find_None.
Defined.

(** ** More on the change summary *)

Section summary_facts.

Lemma getitem_nonempty (row : list Qc) i :
  i < length row → PyList.getitem row i = Ok (row !!! i).
Proof.
  intros Hlt. unfold PyList.getitem.
  by rewrite (list_lookup_lookup_total_lt row i Hlt).
Qed.

Lemma series_ends_ok (y : list (list Qc)) :
  Forall (λ row, row ≠ []) y →
  res_mapM (λ r, PyList.getitem r (length r - 1)) y
    = Ok (map (λ r, r !!! (length r - 1)) y)
  ∧ res_mapM (λ r, PyList.getitem r 0) y = Ok (map (λ r, r !!! 0) y).
Proof.
  intros Hall. split; apply res_mapM_total; eapply Forall_impl; try exact Hall;
    intros row Hrow; apply getitem_nonempty; destruct row; (done || simpl; lia).
Qed.

Lemma series_ends_raise (y : list (list Qc)) :
  Exists (λ row, row = []) y →
  res_mapM (λ r, PyList.getitem r (length r - 1)) y = Raise IndexError.
Proof.
  induction 1 as [row y ->|row y _ IH]; [done|].
  cbn [res_mapM]. destruct row as [|x row]; [done|].
  rewrite getitem_nonempty by (simpl; lia). cbn [res_bind].
  by rewrite IH.
Qed.

Lemma row_species_zip (species : list string) (zs : list (Qc * Qc * Qc)) :
  length species ≤ length zs →
  map row_species
    (zip_with (λ sp '(i, f, c),
       {| row_species := sp; row_initial := i; row_final := f;
          row_change := c;
          row_magnitude := cut (Qc_abs c) bins labels |}) species zs)
  = species.
Proof.
  revert zs. induction species as [|sp species IH]; intros zs Hlen; [done|].
  destruct zs as [|[[i f] c] zs]; [simpl in Hlen; lia|].
  cbn [zip_with map row_species]. f_equal. apply IH. simpl in Hlen. lia.
Qed.

Lemma Qcopp_neg (x : Qc) : (- x < 0)%Qc ↔ (0 < x)%Qc.
Proof.
  rewrite Qclt_minus_iff. by replace (0 + - - x)%Qc with x by ring.
Qed.

Lemma Qcopp_pos (x : Qc) : (x < 0)%Qc ↔ (0 < - x)%Qc.
Proof.
  rewrite Qclt_minus_iff. by replace (0 + - x)%Qc with (- x)%Qc by ring.
Qed.

Lemma Qc_abs_opp (x : Qc) : Qc_abs (- x) = Qc_abs x.
Proof.
  unfold Qc_abs.
  destruct (Qcltb (- x) 0) eqn:E1, (Qcltb x 0) eqn:E2.
  - apply Qcltb_lt in E1, E2. apply Qcopp_neg in E1.
    destruct (Qclt_not_eq _ _ (Qclt_trans _ _ _ E1 E2)). done.
  - ring.
  - done.
  - apply Qcltb_ge in E1, E2.
    assert (x = 0%Qc) as ->.
    { apply Qcle_antisym; [|done].
      apply Qcnot_lt_le. intros H%Qcopp_neg. by apply Qcle_not_lt in E1. }
    ring.
Qed.
End summary_facts.

(** The summary of an array in which every species has a sample. *)
Lemma analyze_changes_sampled (y : list (list Qc)) (species : list string) :
  Forall (λ row, row ≠ []) y →
  analyze_changes y species
  = if decide (length species = length y) then
      Ok (zip_with (λ sp '(i, f, c),
            {| row_species := sp; row_initial := i; row_final := f;
               row_change := c;
               row_magnitude := cut (Qc_abs c) bins labels |})
          species
          (zip (zip (map (λ r, r !!! 0) y)
                    (map (λ r, r !!! (length r - 1)) y))
             (zip_with (λ f i, (f - i)%Qc)
                (map (λ r, r !!! (length r - 1)) y)
                (map (λ r, r !!! 0) y))))
    else Raise ValueError.
Proof.
  intros Hall. unfold analyze_changes.
  by destruct (series_ends_ok y Hall) as [-> ->].
Qed.

(** X15. For an array [y] with at least one row and [n] columns (one row
    per species, one column per sample time): the summary is built exactly
    when there is at least one column and there are as many names as rows;
    it then has one row per name, in the order of the names. Without a
    column the function ends in [IndexError] at [y[:, -1]]; with columns
    and a number of names that differs from the number of rows it ends
    in [ValueError] when the data frame is built. *)
Theorem analyze_changes_shape (y : list (list Qc)) (species : list string)
    (n : nat) :
  y ≠ [] →
  Forall (λ row, length row = n) y →
  (is_ok (analyze_changes y species) ↔ 0 < n ∧ length species = length y)
  ∧ (∀ rows, analyze_changes y species = Ok rows →
       length rows = length species ∧ map row_species rows = species)
  ∧ (n = 0 → analyze_changes y species = Raise IndexError)
  ∧ (0 < n → length species ≠ length y →
     analyze_changes y species = Raise ValueError).
Proof.
  intros Hne Hrect.
  assert (Hraise : n = 0 → analyze_changes y species = Raise IndexError).
  { intros ->. unfold analyze_changes. rewrite series_ends_raise; [done|].
    destruct y as [|row y]; [done|]. left.
    apply Forall_cons in Hrect as [Hrow _]. by destruct row. }
  assert (Hall : 0 < n → Forall (λ row : list Qc, row ≠ []) y).
  { intros Hn. eapply Forall_impl; [exact Hrect|].
    intros row Hrow ->. simpl in Hrow. lia. }
  split_and!; [| |exact Hraise|].
  - split.
    + intros [rows Hrows]. destruct n as [|n].
      { rewrite Hraise in Hrows; done. }
      split; [lia|].
      rewrite (analyze_changes_sampled y species) in Hrows by (apply Hall; lia).
      by destruct (decide (length species = length y)).
    + intros [Hn Hlen].
      rewrite (analyze_changes_sampled y species), decide_True by auto.
      by eexists.
  - intros rows Hrows. destruct n as [|n].
    { rewrite Hraise in Hrows; done. }
    rewrite (analyze_changes_sampled y species) in Hrows by (apply Hall; lia).
    destruct (decide (length species = length y)) as [Hlen|]; [|done].
    injection Hrows as <-.
    assert (Hz : length species
                 ≤ length (zip (zip (map (λ r : list Qc, r !!! 0) y)
                    (map (λ r : list Qc, r !!! (length r - 1)) y))
             (zip_with (λ f i, (f - i)%Qc)
                (map (λ r : list Qc, r !!! (length r - 1)) y)
                (map (λ r : list Qc, r !!! 0) y)))).
    { rewrite !length_zip_with, !length_map. lia. }
    split; [|by apply row_species_zip].
    rewrite length_zip_with. lia.
  - intros Hn Hlen.
    by rewrite (analyze_changes_sampled y species), decide_False by auto.
Qed.

Lemma analyze_changes_shape_witness :
  let y := [[1%Qc; Q2Qc (1 # 2); Q2Qc (1 # 4)]; [0%Qc; Q2Qc (1 # 2); 1%Qc]] in
  y ≠ []
  ∧ Forall (λ row : list Qc, length row = 3) y
  ∧ ∃ rows,
      analyze_changes y ["C00031"; "C00002"] = Ok rows
      ∧ map row_species rows = ["C00031"; "C00002"].
Proof.
  intros y.
  assert (Hne : y ≠ []) by done.
  assert (Hrect : Forall (λ row : list Qc, length row = 3) y).
  { by repeat constructor. }
  split; [exact Hne|]. split; [exact Hrect|].
  destruct (analyze_changes_shape y ["C00031"; "C00002"] 3 Hne Hrect)
    as (Hok & Hshape & _).
  destruct (proj2 Hok) as [rows Hrows]; [split; [lia|reflexivity]|].
  exists rows. split; [exact Hrows|]. exact (proj2 (Hshape rows Hrows)).
Defined.

(** X16. The labels follow the size of the change: of two absolute changes
    the larger never gets the smaller label, and it has a label whenever
    the smaller has one. A rise and a fall of the same size get the same
    label. *)
Theorem magnitude_monotone :
  (∀ x x' m m',
     (x ≤ x')%Qc →
     cut x bins labels = Some m → cut x' bins labels = Some m' →
     magnitude_rank m ≤ magnitude_rank m')
  ∧ (∀ x x' m,
       (x ≤ x')%Qc → cut x bins labels = Some m →
       is_Some (cut x' bins labels))
  ∧ (∀ a b,
       cut (Qc_abs (a - b)%Qc) bins labels
       = cut (Qc_abs (b - a)%Qc) bins labels).
Proof.
  split_and!.
  - intros x x' m m' Hle. rewrite !cut_magnitude.
    destruct (Qcltb 0 x) eqn:E0, (Qcltb (Q2Qc (1 # 10)) x) eqn:E1,
             (Qcltb 1 x) eqn:E2, (Qcltb 0 x') eqn:E0',
             (Qcltb (Q2Qc (1 # 10)) x') eqn:E1', (Qcltb 1 x') eqn:E2';
      intros Hm Hm'; try discriminate Hm; try discriminate Hm';
      injection Hm as <-; injection Hm' as <-; cbn [magnitude_rank];
      try lia; exfalso; qc_order.
  - intros x x' m Hle. rewrite !cut_magnitude.
    destruct (Qcltb 0 x) eqn:E0; [|by destruct (Qcltb (Q2Qc (1 # 10)) x)].
    intros _. destruct (Qcltb 0 x') eqn:E0'.
    + by destruct (Qcltb (Q2Qc (1 # 10)) x'), (Qcltb 1 x').
    + exfalso. qc_order.
  - intros a b. replace (b - a)%Qc with (- (a - b))%Qc by ring.
    by rewrite Qc_abs_opp.
Qed.

Lemma magnitude_monotone_witness :
  (Q2Qc (1 # 20) ≤ Q2Qc 3%Q)%Qc
  ∧ cut (Q2Qc (1 # 20)) bins labels = Some Minor
  ∧ cut (Q2Qc 3%Q) bins labels = Some Major
  ∧ magnitude_rank Minor ≤ magnitude_rank Major.
Proof.
  assert (H : (Q2Qc (1 # 20) ≤ Q2Qc 3%Q)%Qc) by (by vm_compute).
  split_and!; [exact H|reflexivity|reflexivity|].
  exact (proj1 magnitude_monotone _ _ Minor Major H eq_refl eq_refl).
Defined.

(** ** The sample times *)




(** ** A full run of the script *)

Section full_run.
Context (E : externals).

Lemma plot_dynamics_ok t (y : list (list Qc)) species c :
  length species ≤ length y →
  Forall (λ row, length row = length t) y →
  plot_dynamics t y species c = Ok (Plot t y species c).
Proof.
  intros Hlen Hrows. unfold plot_dynamics.
  destruct (res_mapM_Forall
              (λ idx, let! curve := PyList.getitem y idx in
                      if decide (length curve = length t) then Ok curve
                      else Raise ValueError)
              (λ _, True) (seq 0 (length species))) as (bs & -> & _); [|done].
  apply list.Forall_forall. intros idx [_ Hidx]%elem_of_seq.
  destruct (lookup_lt_is_Some_2 y idx) as [row Hrow]; [lia|].
  exists row. unfold PyList.getitem. rewrite Hrow. cbn [res_bind].
  rewrite decide_True; [done|].
  rewrite list.Forall_forall in Hrows. apply Hrows.
  by eapply list_elem_of_lookup_2.
Qed.

Lemma analyze_changes_ok (y : list (list Qc)) species :
  Forall (λ row, row ≠ []) y → length species = length y →
  ∃ rows, analyze_changes y species = Ok rows.
Proof.
  intros Hall Hlen. unfold analyze_changes.
  destruct (series_ends_ok y Hall) as [-> ->]. cbn [res_bind].
  rewrite decide_True by done. by eexists.
Qed.

(** One round of the loop when all goes well: a figure, the heading and
    the data frame. *)
Lemma main_step_ok reactions species events draws c :
  solver_answers E →
  reactions ≠ [] →
  species_of (ext_set_order E) reactions = Ok species →
  ∃ t y rows,
    main_step E reactions (events, draws, None) c
    = (events
         ++ [Plot t y species c;
             Print (newline +:+ "Summary of Changes in Concentrations:");
             Summary rows],
       draws + length reactions, None).
Proof.
  intros Hsolver Hne Hsp. cbn [main_step].
  destruct (solve_ivp_call_ok (ext_set_order E)
              (λ n, ext_uniform E (draws + n)) reactions 0
              (0%Qc, Q2Qc 10%Q)
              {[0 := main_initial_concentrations c reactions]}
              (main_initial_concentrations c reactions) species)
    as (call & Hcall & Hy0); [apply lookup_singleton_eq|done|].
  unfold simulate_reaction_dynamics. rewrite Hcall.
  destruct (Hsolver call) as (t & y & -> & Htne & Hylen & Hrows).
  cbn [res_bind fst snd].
  assert (Hlen : length y = length species).
  { rewrite Hylen, Hy0, length_take, length_app, length_replicate. lia. }
  rewrite plot_dynamics_ok by (done || lia).
  destruct (analyze_changes_ok y species) as [rows ->]; [|done|].
  { eapply Forall_impl; [exact Hrows|]. intros row Hrow ->.
    destruct t; [done|]. simpl in Hrow. lia. }
  by exists t, y, rows.
Qed.

Lemma plotted_prints out : plotted (map Print out) = [].
Proof. induction out as [|l out IH]; [done|]. exact IH. Qed.

Lemma summaries_prints out : summaries (map Print out) = [].
Proof. induction out as [|l out IH]; [done|]. exact IH. Qed.
End full_run.

(** X18. When every fetched description holds a separator and the
    integrator answers with one row per species and one sample per time,
    the script ends without an exception after four rounds: it shows four
    figures, for the initial concentrations 0.1, 0.5, 1 and 2 in this
    order, and four summaries. *)
Theorem main_full_run (E : externals) (parsed : list reaction) :
  let molecule_id :=
    ext_input E
      "Enter the KEGG ID of the molecule (e.g., C00031 for Glucose): " in
  (fetch_reactions_for_molecule (ext_tabulate E)
     (ext_kegg_find E "reaction" molecule_id) molecule_id).1 = Ok parsed →
  parsed ≠ [] →
  Forall (λ r : reaction, PyStr.occurs "<=>" r.2) parsed →
  solver_answers E →
  ∃ events,
    main E = (events, None)
    ∧ plotted events = initial_concentration_range
    ∧ length (summaries events) = 4.
Proof.
  intros molecule_id Hfetch Hne Hsep Hsolver.
  unfold main. fold molecule_id.
  destruct (fetch_ok (ext_tabulate E)
              (ext_kegg_find E "reaction" molecule_id) molecule_id)
    as (parsed' & skipped & Hf & _).
  rewrite Hf in Hfetch. cbn [fst] in Hfetch. injection Hfetch as ->.
  rewrite Hf.
  destruct (build_reaction_network_ok parsed) as [G HG].
  destruct (all_names_ok parsed Hsep) as [names Hnames].
  assert (Hsp : species_of (ext_set_order E) parsed
                = Ok (set_to_list (ext_set_order E) names)).
  { unfold species_of. by rewrite Hnames. }
  destruct parsed as [|r0 rs] eqn:Hparsed; [done|].
  rewrite <- Hparsed in *. rewrite HG.
  unfold initial_concentration_range. cbn [fold_left].
  destruct (main_step_ok E parsed _
              (map Print (fetch_report (ext_tabulate E) molecule_id parsed skipped
                          ++ network_diagnostics parsed))
              0 (Q2Qc (1 # 10)) Hsolver Hne Hsp) as (t1 & y1 & rows1 & ->).
  destruct (main_step_ok E parsed _
              (map Print (fetch_report (ext_tabulate E) molecule_id parsed skipped
                          ++ network_diagnostics parsed)
               ++ [Plot t1 y1 (set_to_list (ext_set_order E) names) (Q2Qc (1 # 10));
                   Print (newline +:+ "Summary of Changes in Concentrations:");
                   Summary rows1])
              (0 + length parsed) (Q2Qc (1 # 2)) Hsolver Hne Hsp)
    as (t2 & y2 & rows2 & ->).
  match goal with
  | |- context [main_step E parsed (?ev, ?d, None) 1%Qc] =>
      destruct (main_step_ok E parsed _ ev d 1%Qc Hsolver Hne Hsp)
        as (t3 & y3 & rows3 & ->)
  end.
  match goal with
  | |- context [main_step E parsed (?ev, ?d, None) 2%Qc] =>
      destruct (main_step_ok E parsed _ ev d 2%Qc Hsolver Hne Hsp)
        as (t4 & y4 & rows4 & ->)
  end.
  eexists. split; [reflexivity|].
  unfold plotted, summaries. rewrite !omap_app.
  fold (plotted (map Print (fetch_report (ext_tabulate E) molecule_id parsed skipped
                            ++ network_diagnostics parsed))).
  fold (summaries (map Print (fetch_report (ext_tabulate E) molecule_id parsed skipped
                              ++ network_diagnostics parsed))).
  by rewrite plotted_prints, summaries_prints.
Qed.

Lemma main_full_run_witness :
  let E := {| ext_input := λ _, "C00031";
              ext_kegg_find := λ _ _,
                "R00001" +:+ tab +:+ "C00031 <=> C00003";
              ext_tabulate := λ _, EmptyString;
              ext_solve_ivp := λ call,
                Ok ([0%Qc], map (λ c, [c]) (ivp_y0 call));
              ext_set_order := insertion_order;
              ext_uniform := λ _, 1%Qc |} in
  (fetch_reactions_for_molecule (ext_tabulate E)
     (ext_kegg_find E "reaction" "C00031") "C00031").1
  = Ok [("R00001", "C00031 <=> C00003")]
  ∧ solver_answers E
  ∧ ∃ events,
      main E = (events, None)
      ∧ plotted events = initial_concentration_range
      ∧ length (summaries events) = 4.
Proof.
  intros E.
  assert (Hsolver : solver_answers E).
  { intros call. exists [0%Qc], (map (λ c, [c]) (ivp_y0 call)).
    split_and!; [done|done|by rewrite length_map|].
    apply Forall_fmap, list.Forall_forall. by intros. }
  split; [reflexivity|]. split; [exact Hsolver|].
  apply (main_full_run E [("R00001", "C00031 <=> C00003")]).
  - reflexivity.
  - done.
  - constructor; [|constructor]. by apply PyStrFacts.occurs_find.
  - exact Hsolver.
Defined.
